(** * PackageInfo: one entry of ember-cli's PackageInfoCache

    A shallow embedding of [lib/models/package-info-cache/package-info.js].

    PackageInfo objects are shared, mutable JavaScript objects that refer to
    each other (dependencies, in-repo addons, the project's own entry may
    even appear in the list of its addons).  They are therefore modelled as
    records living in a store indexed by references; the methods of the class
    take the reference [this] and read or update the store.  No method of the
    class allocates a PackageInfo, and JavaScript has no dangling references,
    so the store is a total function.

    Calls to the collaborators of the class (the node_modules index, the
    cache's ascending-directory search, the ui's warning writer) are recorded
    in an event log, which is how "is called" and "is emitted" are stated. *)

From stdpp Require Import strings functions list fin_maps gmap.

Set Warnings "-register-all".

(** ** JavaScript values *)

(** A value read from a package.json.  Numbers keep their literal: no method
    of the class computes with them. *)
Inductive Json : Type :=
| JNull
| JBool (b : bool)
| JNumber (literal : string)
| JString (s : string)
| JArray (items : list Json)
| JObject (members : list (string * Json)).

(** A plain object used as a string-keyed map and read through
    [Object.keys]: its own enumerable properties, in the order [Object.keys]
    lists them.  The keys of an object are pairwise distinct ([wf]). *)
Module JsObject.
Definition t (V : Type) : Type := list (string * V).

Definition keys {V} (o : t V) : list string := o.*1.

Definition values {V} (o : t V) : list V := o.*2.

(** [o[k]]: [None] stands for [undefined]. *)
Fixpoint get {V} (o : t V) (k : string) : option V :=
  match o with
  | [] => None
  | (k', v) :: o' => if decide (k' = k) then Some v else get o' k
  end.

Definition wf {V} (o : t V) : Prop := NoDup (keys o).
End JsObject.

(** [v === s] for a string [s]: only a string value is strictly equal to a
    string. *)
Definition strict_equals_string (v : Json) (s : string) : bool :=
  match v with
  | JString s' => bool_decide (s' = s)
  | _ => false
  end.

(** [items.indexOf(s)] for a string [s]: the first index holding a value
    strictly equal to [s], or [-1]. *)
Fixpoint indexOf (items : list Json) (s : string) : Z :=
  match items with
  | [] => -1
  | v :: items' =>
      if strict_equals_string v s then 0
      else let i := indexOf items' s in
           if decide (i = -1)%Z then (-1)%Z else (1 + i)%Z
  end.

Inductive JsError : Type := TypeError.

(** The outcome of a call that may throw. *)
Inductive Completion (A : Type) : Type :=
| Normal (a : A)
| Throw (e : JsError).
Arguments Normal {A} a.
Arguments Throw {A} e.

(** ** Collaborators *)

(** References to PackageInfo objects. *)
Abbreviation loc := positive (only parsing).

Module Errors.
(** Modelled from the spec: [./errors] is not part of the sources; the one
    error kind this class records is "dependencies missing", carrying the
    list of unresolved names.  [ERROR_OTHER] stands for the kinds recorded by
    the cache. *)
Inductive kind : Type :=
| ERROR_DEPENDENCIES_MISSING
| ERROR_OTHER (type : string).

Inductive data : Type :=
| Names (names : list string)
| Other (d : Json).
End Errors.

Module ErrorList.
Record ErrorEntry : Type := { type : Errors.kind; data : Errors.data }.

Definition t : Type := list ErrorEntry.

(** Modelled from the spec: [./error-list] is not part of the sources; the
    error sink accumulates (errorKind, errorData) pairs per node. *)
Definition addError (errors : t) (errorType : Errors.kind)
    (errorData : Errors.data) : t :=
  errors ++ [{| type := errorType; data := errorData |}].

(** Modelled from the doc comment of [PackageInfo.hasErrors]: whether
    there are any errors in the list. *)
Definition hasErrors (errors : t) : bool :=
  bool_decide (length errors ≠ 0).
End ErrorList.

(** The parsed package.json.  Its [name] is a string, as npm requires; every
    other member is an arbitrary JSON value. *)
Record Manifest : Type := {
  pkg_name : string;
  pkg_members : JsObject.t Json
}.

Module AddonInfo.
(** Modelled from the spec: [../addon-info] is not part of the sources; an
    AddonRecord is the immutable triple of name, realPath and manifest it is
    constructed from. *)
Record t : Type := new { name : string; path : string; pkg : Manifest }.
End AddonInfo.

(** The node_modules index of a package ([NodeModulesList], not part of the
    sources): [findPackage(name)] answers a PackageInfo or nothing. *)
Record NodeModulesList : Type := {
  findPackage : string → option loc
}.

(** The ui of the cache; [writeWarnLine] tells whether the object has that
    method. *)
Record UI : Type := {
  writeWarnLine : bool
}.

(** The owning PackageInfoCache, as far as this class uses it:
    [_findPackage(name, dir)] is the ascending-directory search. *)
Record PackageInfoCache : Type := {
  _findPackage : string → string → option loc;
  ui : option UI
}.

(** The Project a project's PackageInfo points to ([lib/models/project] is
    not part of the sources): this class only asks it
    [isEmberCLIAddon()], whether the project package is itself an addon. *)
Record Project : Type := {
  isEmberCLIAddon : bool
}.

(** Node's [path] module, as far as this class uses it. *)
Record PathModule : Type := {
  dirname : string → string;
  relative : string → string → string
}.

(** ** The PackageInfo object *)

(** The fields set by the constructor and by the cache.  [addonMainPath] and
    [addonConstructor] are only used by [getAddonConstructor], which loads
    code and is left out. *)
Record PackageInfo : Type := {
  pkg : Manifest;
  realPath : string;
  cache : PackageInfoCache;
  errors : ErrorList.t;
  inRepoAddons : option (list loc);
  internalAddons : option (list loc);
  cliInfo : option loc;
  dependencyPackages : option (JsObject.t loc);
  devDependencyPackages : option (JsObject.t loc);
  nodeModules : option NodeModulesList;
  valid : bool;
  _hasDumpedInvalidAddonPackages : bool;
  project : option Project
}.

Definition set_errors (e : ErrorList.t) (p : PackageInfo) : PackageInfo :=
  {| pkg := pkg p; realPath := realPath p; cache := cache p; errors := e;
     inRepoAddons := inRepoAddons p; internalAddons := internalAddons p;
     cliInfo := cliInfo p; dependencyPackages := dependencyPackages p;
     devDependencyPackages := devDependencyPackages p;
     nodeModules := nodeModules p; valid := valid p;
     _hasDumpedInvalidAddonPackages := _hasDumpedInvalidAddonPackages p;
     project := project p |}.

Definition set_hasDumpedInvalidAddonPackages (b : bool) (p : PackageInfo)
    : PackageInfo :=
  {| pkg := pkg p; realPath := realPath p; cache := cache p;
     errors := errors p;
     inRepoAddons := inRepoAddons p; internalAddons := internalAddons p;
     cliInfo := cliInfo p; dependencyPackages := dependencyPackages p;
     devDependencyPackages := devDependencyPackages p;
     nodeModules := nodeModules p; valid := valid p;
     _hasDumpedInvalidAddonPackages := b;
     project := project p |}.

Definition set_devDependencyPackages (d : option (JsObject.t loc))
    (p : PackageInfo) : PackageInfo :=
  {| pkg := pkg p; realPath := realPath p; cache := cache p;
     errors := errors p;
     inRepoAddons := inRepoAddons p; internalAddons := internalAddons p;
     cliInfo := cliInfo p; dependencyPackages := dependencyPackages p;
     devDependencyPackages := d;
     nodeModules := nodeModules p; valid := valid p;
     _hasDumpedInvalidAddonPackages := _hasDumpedInvalidAddonPackages p;
     project := project p |}.

(** ** The store, the event log and the monad of the methods *)

Abbreviation Store := (loc → PackageInfo) (only parsing).

(** Calls to the collaborators, in the order they are made. *)
Inductive Event : Type :=
| Call_nodeModules_findPackage (name : string)
| Call_cache_findPackage (name : string) (dir : string)
| Call_ui_writeWarnLine (line : string).

Record World : Type := {
  store : Store;
  log : list Event
}.

Definition M (A : Type) : Type := World → A * World.

#[global] Instance M_ret : MRet M := λ A a w, (a, w).

#[global] Instance M_bind : MBind M :=
  λ A B k m w, let (a, w') := m w in k a w'.

Definition read (r : loc) : M PackageInfo := λ w, (store w r, w).

Definition get_store : M Store := λ w, (store w, w).

Definition write (r : loc) (p : PackageInfo) : M unit :=
  λ w, (tt, {| store := <[r := p]> (store w); log := log w |}).

Definition emit (e : Event) : M unit :=
  λ w, (tt, {| store := store w; log := log w ++ [e] |}).

(** [xs.forEach(x => body)] where the body updates local variables of the
    enclosing function, threaded here as [acc]. *)
Fixpoint forEach {A S} (xs : list A) (body : A → S → M S) (acc : S) : M S :=
  match xs with
  | [] => mret acc
  | x :: xs' => acc' ← body x acc; forEach xs' body acc'
  end.

(** The three collaborator calls: each is logged and answers what the
    collaborator answers. *)
Definition call_nodeModules_findPackage (nm : NodeModulesList)
    (name : string) : M (option loc) :=
  emit (Call_nodeModules_findPackage name) ;; mret (findPackage nm name).

Definition call_cache_findPackage (c : PackageInfoCache)
    (name dir : string) : M (option loc) :=
  emit (Call_cache_findPackage name dir) ;; mret (_findPackage c name dir).

Definition call_ui_writeWarnLine (line : string) : M unit :=
  emit (Call_ui_writeWarnLine line).

(** ** The methods of the class *)

Section PackageInfo.
Variable path : PathModule.

(** [get name()] *)
Definition name (this : PackageInfo) : string := pkg_name (pkg this).

Definition addError (this : loc) (errorType : Errors.kind)
    (errorData : Errors.data) : M unit :=
  self ← read this;
  write this
    (set_errors (ErrorList.addError (errors self) errorType errorData) self).

Definition hasErrors (this : PackageInfo) : bool :=
  ErrorList.hasErrors (errors this).

(** The body of the [forEach] of [addDependencies]; [acc] holds its
    [packages] and [missingDependencies]. *)
Definition addDependencies_body (this : loc) (dependencyName : string)
    (acc : gmap string loc * list string)
    : M (gmap string loc * list string) :=
  let '(packages, missingDependencies) := acc in
  self ← read this;
  dependencyPackage ←
    match nodeModules self with
    | Some nm => call_nodeModules_findPackage nm dependencyName
    | None => mret None
    end;
  dependencyPackage ←
    match dependencyPackage with
    | Some p => mret (Some p)
    | None =>
        call_cache_findPackage (cache self) dependencyName
          (dirname path (realPath self))
    end;
  match dependencyPackage with
  | Some p => mret (<[dependencyName := p]> packages, missingDependencies)
  | None => mret (packages, missingDependencies ++ [dependencyName])
  end.

(** [dependencies] is the value of the 'dependencies' or
    'devDependencies' member of a package.json: an object from names to
    version ranges, or [None] when the manifest has no such member.  The
    result [None] is JavaScript's [null]. *)
Definition addDependencies (this : loc)
    (dependencies : option (JsObject.t string))
    : M (option (gmap string loc)) :=
  match dependencies with
  | None => mret None
  | Some dependencies =>
      let dependencyNames := JsObject.keys dependencies in
      if decide (length dependencyNames = 0) then mret None
      else
        '(packages, missingDependencies) ←
          forEach dependencyNames (addDependencies_body this) (∅, []);
        (if decide (0 < length missingDependencies)
         then addError this Errors.ERROR_DEPENDENCIES_MISSING
                (Errors.Names missingDependencies)
         else mret tt);;
        mret (Some packages)
  end.

Definition isAddon (this : PackageInfo) : bool :=
  match JsObject.get (pkg_members (pkg this)) "keywords"%string with
  | Some (JArray keywords) => bool_decide (0 ≤ indexOf keywords "ember-addon")%Z
  | _ => false
  end.

(** The second argument of [addPackages]: an array or a map of
    PackageInfos. *)
Inductive PackageInfoList : Type :=
| AsArray (l : list loc)
| AsObject (o : JsObject.t loc).

(** [addonPackageList] is pushed onto in place: the list after the call is
    returned.  [None] for [packageInfoList] is a falsy argument, [None]
    for [excludeFn] an omitted one.  [this] is not read. *)
Definition addPackages (addonPackageList : list loc)
    (packageInfoList : option PackageInfoList)
    (excludeFn : option (loc → bool)) : list loc :=
  match packageInfoList with
  | None => addonPackageList
  | Some (AsArray packageInfoList) =>
      let packageInfoList :=
        match excludeFn with
        | Some excludeFn =>
            List.filter (λ pkgInfo, negb (excludeFn pkgInfo)) packageInfoList
        | None => packageInfoList
        end in
      fold_left (λ addonPackageList pkgInfo, addonPackageList ++ [pkgInfo])
        packageInfoList addonPackageList
  | Some (AsObject packageInfoList) =>
      fold_left
        (λ addonPackageList name,
           match JsObject.get packageInfoList name with
           | Some pkgInfo =>
               if match excludeFn with
                  | Some excludeFn => negb (excludeFn pkgInfo)
                  | None => true
                  end
               then addonPackageList ++ [pkgInfo]
               else addonPackageList
           | None => addonPackageList (* not reached: [name] is a key *)
           end)
        (JsObject.keys packageInfoList) addonPackageList
  end.

Definition discoverAddonAddons (σ : Store) (this : loc) : list loc :=
  let self := σ this in
  let addonPackageList := [] in
  let addonPackageList :=
    addPackages addonPackageList
      (AsObject <$> dependencyPackages self)
      (Some (λ pkgInfo,
         negb (isAddon (σ pkgInfo))
         || bool_decide (name (σ pkgInfo) = "ember-cli"%string))) in
  let addonPackageList :=
    addPackages addonPackageList (AsArray <$> inRepoAddons self) None in
  addonPackageList.

(** [this.project] is only set on the PackageInfo of a project; on any
    other, [project.isEmberCLIAddon()] throws. *)
Definition discoverProjectAddons (σ : Store) (this : loc)
    : Completion (list loc) :=
  let self := σ this in
  match project self with
  | None => Throw TypeError
  | Some project =>
      let addonPackageList := [] in
      let addonPackageList :=
        addPackages addonPackageList
          (if isEmberCLIAddon project then Some (AsArray [this]) else None)
          None in
      let addonPackageList :=
        addPackages addonPackageList
          (match cliInfo self with
           | Some cliInfo => AsArray <$> inRepoAddons (σ cliInfo)
           | None => None
           end)
          None in
      let addonPackageList :=
        addPackages addonPackageList (AsArray <$> internalAddons self)
          None in
      let addonPackageList :=
        addPackages addonPackageList (AsObject <$> dependencyPackages self)
          (Some (λ pkgInfo, negb (isAddon (σ pkgInfo)))) in
      let addonPackageList :=
        addPackages addonPackageList
          (AsObject <$> devDependencyPackages self)
          (Some (λ pkgInfo, negb (isAddon (σ pkgInfo)))) in
      let addonPackageList :=
        addPackages addonPackageList (AsArray <$> inRepoAddons self) None in
      Normal addonPackageList
  end.

Definition getValidPackages (σ : Store) (addonPackageList : list loc)
    : list loc :=
  List.filter (λ pkgInfo, valid (σ pkgInfo)) addonPackageList.

Definition getInvalidPackages (σ : Store) (addonPackageList : list loc)
    : list loc :=
  List.filter (λ pkgInfo, negb (valid (σ pkgInfo))) addonPackageList.

(** [packageMap] is created empty and written by name; no order of its
    keys is modelled.  [this] is not read. *)
Definition generateAddonPackages (σ : Store) (addonPackageList : list loc)
    (excludeFn : option (AddonInfo.t → bool)) : gmap string AddonInfo.t :=
  let validPackages := getValidPackages σ addonPackageList in
  fold_left
    (λ packageMap pkgInfo,
       let addonInfo :=
         AddonInfo.new (name (σ pkgInfo)) (realPath (σ pkgInfo))
           (pkg (σ pkgInfo)) in
       if match excludeFn with
          | Some excludeFn => negb (excludeFn addonInfo)
          | None => true
          end
       then <[name (σ pkgInfo) := addonInfo]> packageMap
       else packageMap)
    validPackages ∅.

(** The body of the [forEach] of [dumpInvalidAddonPackages]. *)
Definition dumpInvalidAddonPackages_body (this : loc) (packageInfo : loc)
    (_ : unit) : M unit :=
  self ← read this;
  other ← read packageInfo;
  let relativePath := relative path (realPath self) (realPath other) in
  call_ui_writeWarnLine
    ("   Excluding invalid/malformed/missing addon at relative path '"
     +:+ relativePath +:+ "'").

Definition dumpInvalidAddonPackages (this : loc)
    (addonPackageList : list loc) : M unit :=
  self ← read this;
  if _hasDumpedInvalidAddonPackages self then mret tt
  else
    write this (set_hasDumpedInvalidAddonPackages true self);;
    σ ← get_store;
    let invalidPackages := getInvalidPackages σ addonPackageList in
    self ← read this;
    let ui := ui (cache self) in
    match ui with
    | Some ui' =>
        if bool_decide (0 < length invalidPackages) && writeWarnLine ui'
        then
          let typeName :=
            match project self with
            | Some _ => "project"
            | None => "addon"
            end in
          call_ui_writeWarnLine
            ("For " +:+ typeName +:+ " at path " +:+ realPath self +:+ ":");;
          forEach invalidPackages (dumpInvalidAddonPackages_body this) tt
        else mret tt
    | None => mret tt
    end.
End PackageInfo.

(** ** The remaining methods *)

Definition set_inRepoAddons (l : option (list loc)) (p : PackageInfo)
    : PackageInfo :=
  {| pkg := pkg p; realPath := realPath p; cache := cache p;
     errors := errors p;
     inRepoAddons := l; internalAddons := internalAddons p;
     cliInfo := cliInfo p; dependencyPackages := dependencyPackages p;
     devDependencyPackages := devDependencyPackages p;
     nodeModules := nodeModules p; valid := valid p;
     _hasDumpedInvalidAddonPackages := _hasDumpedInvalidAddonPackages p;
     project := project p |}.

Definition set_internalAddons (l : option (list loc)) (p : PackageInfo)
    : PackageInfo :=
  {| pkg := pkg p; realPath := realPath p; cache := cache p;
     errors := errors p;
     inRepoAddons := inRepoAddons p; internalAddons := l;
     cliInfo := cliInfo p; dependencyPackages := dependencyPackages p;
     devDependencyPackages := devDependencyPackages p;
     nodeModules := nodeModules p; valid := valid p;
     _hasDumpedInvalidAddonPackages := _hasDumpedInvalidAddonPackages p;
     project := project p |}.

(** An array is truthy even when empty: [!this.inRepoAddons] holds only
    while the field is unset. *)
Definition addInRepoAddon (this inRepoAddonPkg : loc) : M unit :=
  self ← read this;
  (match inRepoAddons self with
   | None => write this (set_inRepoAddons (Some []) self)
   | Some _ => mret tt
   end);;
  self ← read this;
  match inRepoAddons self with
  | Some l => write this (set_inRepoAddons (Some (l ++ [inRepoAddonPkg])) self)
  | None => mret tt (* not reached: the field was just set *)
  end.

Definition addInternalAddon (this internalAddonPkg : loc) : M unit :=
  self ← read this;
  (match internalAddons self with
   | None => write this (set_internalAddons (Some []) self)
   | Some _ => mret tt
   end);;
  self ← read this;
  match internalAddons self with
  | Some l =>
      write this (set_internalAddons (Some (l ++ [internalAddonPkg])) self)
  | None => mret tt (* not reached: the field was just set *)
  end.

(** [o[k] = v] on a plain object, for a key [k] that is not an array index
    (such a key is listed by [Object.keys] where it was first created): the
    value of an own property is replaced in place, a new property comes
    last. *)
Fixpoint JsObject_set {V} (o : JsObject.t V) (k : string) (v : V)
    : JsObject.t V :=
  match o with
  | [] => [(k, v)]
  | (k', v') :: o' =>
      if decide (k' = k) then (k', v) :: o'
      else (k', v') :: JsObject_set o' k v
  end.

Section Constructor.
(** How JavaScript reads a number literal is not modelled: whether a
    literal denotes zero, the one falsy number of a package.json, is a
    parameter. *)
Variable number_is_zero : string → bool.

(** The truthiness of a value, as [||] tests it. *)
Definition ToBoolean (v : Json) : bool :=
  match v with
  | JNull => false
  | JBool b => b
  | JNumber literal => negb (number_is_zero literal)
  | JString s => negb (bool_decide (s = ""%string))
  | JArray _ => true
  | JObject _ => true
  end.

(** [new PackageInfo(pkgObj, realPath, cache)].  The ErrorList starts
    empty; the fields the constructor sets to [undefined] are [None], and
    so is [project], which it does not mention. *)
Definition constructor (pkgObj : Manifest) (realPath : string)
    (cache : PackageInfoCache) : PackageInfo :=
  let ember_addon :=
    match JsObject.get (pkg_members pkgObj) "ember-addon"%string with
    | Some v => if ToBoolean v then v else JObject []
    | None => JObject []
    end in
  {| pkg :=
       {| pkg_name := pkg_name pkgObj;
          pkg_members :=
            JsObject_set (pkg_members pkgObj) "ember-addon"%string
              ember_addon |};
     realPath := realPath;
     cache := cache;
     errors := [];
     inRepoAddons := None;
     internalAddons := None;
     cliInfo := None;
     dependencyPackages := None;
     devDependencyPackages := None;
     nodeModules := None;
     valid := true;
     _hasDumpedInvalidAddonPackages := false;
     project := None |}.
End Constructor.

(** ** Vocabulary of the statements *)

(** The candidates an exclusion function lets through. *)
Definition kept (excludeFn : loc → bool) (pkgInfo : loc) : bool :=
  negb (excludeFn pkgInfo).

(** What a candidate source contributes: a list, or nothing when the field
    is not set. *)
Definition listOf (l : option (list loc)) : list loc := default [] l.

Definition valuesOf (o : option (JsObject.t loc)) : list loc :=
  default [] (JsObject.values <$> o).

Definition wfOf (o : option (JsObject.t loc)) : Prop :=
  from_option JsObject.wf True o.

(** The PackageInfo a declared name resolves to from the node [self]: the
    answer of the node_modules index when the node has one and it knows the
    name, else the answer of the cache's search from the parent directory of
    [realPath]. *)
Definition resolution (path : PathModule) (self : PackageInfo)
    (name : string) : option loc :=
  match
    match nodeModules self with
    | Some nm => findPackage nm name
    | None => None
    end
  with
  | Some p => Some p
  | None => _findPackage (cache self) name (dirname path (realPath self))
  end.

Definition resolves (path : PathModule) (self : PackageInfo)
    (name : string) : bool :=
  bool_decide (is_Some (resolution path self name)).

(** The collaborator calls made for one declared name. *)
Definition lookups (path : PathModule) (self : PackageInfo)
    (name : string) : list Event :=
  match nodeModules self with
  | Some nm =>
      Call_nodeModules_findPackage name
      :: match findPackage nm name with
         | Some _ => []
         | None =>
             [Call_cache_findPackage name (dirname path (realPath self))]
         end
  | None => [Call_cache_findPackage name (dirname path (realPath self))]
  end.

(** The mapping from the names of [names] that resolve to what they resolve
    to, added to [packages]. *)
Definition resolved (path : PathModule) (self : PackageInfo)
    (names : list string) (packages : gmap string loc) : gmap string loc :=
  fold_left
    (λ packages name,
       match resolution path self name with
       | Some p => <[name := p]> packages
       | None => packages
       end)
    names packages.

(** The names of [names] that do not resolve, in order. *)
Definition missing (path : PathModule) (self : PackageInfo)
    (names : list string) : list string :=
  List.filter (λ name, negb (resolves path self name)) names.

(** The store after the names [ms] were found missing from [this]: one error
    is added to the node when there is such a name. *)
Definition record_missing (σ : Store) (this : loc) (ms : list string)
    : Store :=
  if decide (0 < length ms)
  then <[this := set_errors
                   (ErrorList.addError (errors (σ this))
                      Errors.ERROR_DEPENDENCIES_MISSING (Errors.Names ms))
                   (σ this)]> σ
  else σ.

(** The AddonRecord built from the candidate [r]. *)
Definition addonInfoOf (σ : Store) (r : loc) : AddonInfo.t :=
  AddonInfo.new (name (σ r)) (realPath (σ r)) (pkg (σ r)).

(** Whether the optional [excludeFn] rejects an AddonRecord. *)
Definition rejects (excludeFn : option (AddonInfo.t → bool))
    (a : AddonInfo.t) : bool :=
  match excludeFn with
  | Some excludeFn => excludeFn a
  | None => false
  end.

(** A candidate that reaches the addon map: valid, and its AddonRecord is
    not rejected. *)
Definition admitted (σ : Store) (excludeFn : option (AddonInfo.t → bool))
    (r : loc) : bool :=
  valid (σ r) && negb (rejects excludeFn (addonInfoOf σ r)).

(** The admitted candidates of [l] named [k], in order. *)
Definition admitted_named (σ : Store)
    (excludeFn : option (AddonInfo.t → bool)) (k : string) (l : list loc)
    : list loc :=
  List.filter (λ r, admitted σ excludeFn r && bool_decide (name (σ r) = k)) l.

(** The warning block: a header line naming the owner's role and realPath,
    then one line per invalid candidate with its path relative to the
    owner. *)
Definition role (self : PackageInfo) : string :=
  match project self with
  | Some _ => "project"
  | None => "addon"
  end.

Definition header_line (self : PackageInfo) : string :=
  "For " +:+ role self +:+ " at path " +:+ realPath self +:+ ":".

Definition excluded_line (path : PathModule) (self other : PackageInfo)
    : string :=
  "   Excluding invalid/malformed/missing addon at relative path '"
  +:+ relative path (realPath self) (realPath other) +:+ "'".

Definition warning_block (path : PathModule) (σ : Store) (this : loc)
    (l : list loc) : list Event :=
  Call_ui_writeWarnLine (header_line (σ this))
  :: ((λ r, Call_ui_writeWarnLine (excluded_line path (σ this) (σ r)))
      <$> getInvalidPackages σ l).

(** Whether the cache of [self] has a ui that can write warning lines. *)
Definition has_channel (self : PackageInfo) : bool :=
  match ui (cache self) with
  | Some ui' => writeWarnLine ui'
  | None => false
  end.

(** What the first [dumpInvalidAddonPackages] of an owner writes. *)
Definition first_dump (path : PathModule) (σ : Store) (this : loc)
    (l : list loc) : list Event :=
  if bool_decide (getInvalidPackages σ l ≠ []) && has_channel (σ this)
  then warning_block path σ this l
  else [].

(** What may happen to the world between two calls: [addDependencies] or
    [dumpInvalidAddonPackages] runs on some node, or the cache, its
    collaborators and the other methods update nodes and write to the log;
    no code clears [_hasDumpedInvalidAddonPackages], which only
    [dumpInvalidAddonPackages] writes after the constructor. *)
Inductive step (path : PathModule) : World → World → Prop :=
| step_addDependencies r D w :
    step path w (addDependencies path r D w).2
| step_dumpInvalidAddonPackages r l w :
    step path w (dumpInvalidAddonPackages path r l w).2
| step_external w w' :
    (∀ r, _hasDumpedInvalidAddonPackages (store w r) = true →
          _hasDumpedInvalidAddonPackages (store w' r) = true) →
    step path w w'.

(** The names a dependency spec declares; none for an absent spec. *)
Definition declared (D : option (JsObject.t string)) : list string :=
  default [] (JsObject.keys <$> D).

(** The answer of the node_modules index of [self], when it has one. *)
Definition index_answer (self : PackageInfo) (name : string) : option loc :=
  match nodeModules self with
  | Some nm => findPackage nm name
  | None => None
  end.

(** The names the node_modules index was asked for, and the name and
    directory of each search of the cache, in a stretch of the log. *)
Definition probed (evs : list Event) : list string :=
  omap (λ e, match e with
             | Call_nodeModules_findPackage n => Some n
             | _ => None
             end) evs.

Definition searched (evs : list Event) : list (string * string) :=
  omap (λ e, match e with
             | Call_cache_findPackage n d => Some (n, d)
             | _ => None
             end) evs.

(** The entry [addDependencies] records for the names [ms]. *)
Definition missing_entry (ms : list string) : ErrorList.ErrorEntry :=
  {| ErrorList.type := Errors.ERROR_DEPENDENCIES_MISSING;
     ErrorList.data := Errors.Names ms |}.

(** Two stores whose nodes answer [isAddon] and [name] alike: discovery
    reads nothing else of a candidate. *)
Definition same_candidates (σ σ' : Store) : Prop :=
  ∀ r, isAddon (σ' r) = isAddon (σ r) ∧ name (σ' r) = name (σ r).

(** The candidates of a project that come before its internal addons: the
    project itself if it is an addon, then the in-repo addons of
    [cliInfo]. *)
Definition before_internal (σ : Store) (this : loc) (p : Project)
    : list loc :=
  (if isEmberCLIAddon p then [this] else [])
  ++ match cliInfo (σ this) with
     | Some cli => listOf (inRepoAddons (σ cli))
     | None => []
     end.

(** The candidates of a project that come from its dependencies and dev
    dependencies. *)
Definition from_dependencies (σ : Store) (this : loc) : list loc :=
  addPackages [] (AsObject <$> dependencyPackages (σ this))
    (Some (λ pkgInfo, negb (isAddon (σ pkgInfo))))
  ++ addPackages [] (AsObject <$> devDependencyPackages (σ this))
       (Some (λ pkgInfo, negb (isAddon (σ pkgInfo)))).

(** A manifest is addon-shaped when it declares the keyword 'ember-addon':
    its keywords member is an array, and one of the elements of that array
    is this string. *)
Definition declares_keyword (keywords : list Json) : bool :=
  existsb
    (λ v, match v with
          | JString s => bool_decide (s = "ember-addon"%string)
          | _ => false
          end)
    keywords.

Definition addon_shaped (m : Manifest) : bool :=
  match JsObject.get (pkg_members m) "keywords"%string with
  | Some (JArray keywords) => declares_keyword keywords
  | _ => false
  end.

(** The candidates of [l] whose [valid] flag is false, in order: the ones a
    warning block has a line for. *)
Definition reported (σ : Store) (l : list loc) : list loc :=
  List.filter (λ r, bool_decide (valid (σ r) = false)) l.

(** ** A small project

    The project my-app (node 1) is itself an addon; ember-cli (node 2)
    brings the in-repo addon 8; node 3 is an internal addon; the
    dependencies are the addon ember-foo (node 4) and lodash (node 5, a
    package that calls itself lodash-es), which is no addon; the dev dependency ember-bar (node 6) is an addon whose
    PackageInfo is invalid; node 7 is an in-repo addon.  The node_modules
    index of the project knows ember-foo; the cache's search from above the
    project would find another ember-foo (node 9), and lodash.

    The addon ember-foo depends on ember-cli, on the addon ember-baz
    (node 10) and on lodash, has ember-bar as a dev dependency, and has an
    in-repo package (node 11) whose manifest lacks the addon keyword. *)
Module Example.
Local Open Scope string_scope.

Definition path : PathModule :=
  {| dirname := λ _, "/work"; relative := λ _ to, to |}.

Definition manifest (name : string) (addon : bool) : Manifest :=
  {| pkg_name := name;
     pkg_members :=
       if addon then [("keywords", JArray [JString "ember-addon"])]
       else [("keywords", JArray [JString "utility"])] |}.

Definition the_cache : PackageInfoCache :=
  {| _findPackage := λ name dir,
       if decide (name = "ember-foo") then Some 9%positive
       else if decide (name = "lodash") then Some 5%positive
       else None;
     ui := Some {| writeWarnLine := true |} |}.

Definition node (name realPath : string) (addon valid : bool)
    : PackageInfo :=
  {| pkg := manifest name addon; realPath := realPath; cache := the_cache;
     errors := []; inRepoAddons := None; internalAddons := None;
     cliInfo := None; dependencyPackages := None;
     devDependencyPackages := None; nodeModules := None; valid := valid;
     _hasDumpedInvalidAddonPackages := false; project := None |}.

Definition app : PackageInfo :=
  {| pkg := manifest "my-app" true; realPath := "/work/my-app";
     cache := the_cache; errors := [];
     inRepoAddons := Some [7%positive];
     internalAddons := Some [3%positive];
     cliInfo := Some 2%positive;
     dependencyPackages :=
       Some [("ember-foo", 4%positive); ("lodash", 5%positive)];
     devDependencyPackages := Some [("ember-bar", 6%positive)];
     nodeModules :=
       Some {| findPackage := λ name,
                 if decide (name = "ember-foo") then Some 4%positive
                 else None |};
     valid := true; _hasDumpedInvalidAddonPackages := false;
     project := Some {| isEmberCLIAddon := true |} |}.

Definition cli : PackageInfo :=
  {| pkg := manifest "ember-cli" true;
     realPath := "/work/my-app/node_modules/ember-cli";
     cache := the_cache; errors := [];
     inRepoAddons := Some [8%positive]; internalAddons := None;
     cliInfo := None; dependencyPackages := None;
     devDependencyPackages := None; nodeModules := None; valid := true;
     _hasDumpedInvalidAddonPackages := false; project := None |}.

Definition foo : PackageInfo :=
  {| pkg := manifest "ember-foo" true;
     realPath := "/work/my-app/node_modules/ember-foo";
     cache := the_cache; errors := [];
     inRepoAddons := Some [11%positive]; internalAddons := None;
     cliInfo := None;
     dependencyPackages :=
       Some [("ember-cli", 2%positive); ("ember-baz", 10%positive);
             ("lodash", 5%positive)];
     devDependencyPackages := Some [("ember-bar", 6%positive)];
     nodeModules := None; valid := true;
     _hasDumpedInvalidAddonPackages := false; project := None |}.

Definition nodes : Store := λ r,
  match r with
  | 1 => app
  | 2 => cli
  | 3 => node "tests-server-middleware" "/work/my-app/lib/internal" true true
  | 4 => foo
  | 5 => node "lodash-es" "/work/node_modules/lodash" false true
  | 6 => node "ember-bar" "/work/my-app/node_modules/ember-bar" true false
  | 7 => node "in-repo" "/work/my-app/lib/in-repo" true true
  | 8 => node "cli-addon" "/work/my-app/node_modules/ember-cli/lib/x" true true
  | 9 => node "ember-foo" "/work/node_modules/ember-foo" true true
  | 10 => node "ember-baz" "/work/my-app/node_modules/ember-baz" true true
  | 11 => node "helper" "/work/my-app/node_modules/ember-foo/lib/helper"
            false true
  | _ => node "" "" false false
  end%positive.

Definition w0 : World := {| store := nodes; log := [] |}.

(** The 'dependencies' of my-app, with a name nothing provides. *)
Definition dependencies : JsObject.t string :=
  [("ember-foo", "^1.0.0"); ("lodash", "^4.17.0"); ("left-pad", "*")].

Definition installed : JsObject.t string :=
  [("ember-foo", "^1.0.0"); ("lodash", "^4.17.0")].

Definition absent : JsObject.t string :=
  [("left-pad", "*"); ("right-pad", "*")].
End Example.

(** * Properties *)

(** ** Plain objects *)

Lemma JsObject_get_entry {V} (o : JsObject.t V) k v :
  JsObject.wf o → (k, v) ∈ o → JsObject.get o k = Some v.
Proof.
  unfold JsObject.wf, JsObject.keys.
  induction o as [|[k' v'] o IH]; intros Hnd Hin.
  - by apply elem_of_nil in Hin.
  - rewrite fmap_cons in Hnd. apply list.NoDup_cons in Hnd as [Hk' Hnd].
    apply elem_of_cons in Hin as [Heq|Hin]; simpl.
    + injection Heq as -> ->. by rewrite decide_True.
    + rewrite decide_False; [by apply IH|].
      intros ->. apply Hk'. apply list_elem_of_fmap. by exists (k, v).
Qed.

(** ** Addon-shaped manifests *)

Lemma strict_equals_string_true v s :
  strict_equals_string v s = true ↔ v = JString s.
Proof.
  destruct v; simpl; try (split; [discriminate | done]).
  rewrite bool_decide_eq_true. split; [by intros -> | by intros [= ->]].
Qed.

Lemma indexOf_range items s :
  indexOf items s = (-1)%Z ∨ (0 ≤ indexOf items s)%Z.
Proof.
  induction items as [|v items IH]; [by left|]. simpl.
  destruct (strict_equals_string v s); [right; lia|].
  case_decide; [by left | right; lia].
Qed.

Lemma indexOf_found items s :
  (0 ≤ indexOf items s)%Z ↔ JString s ∈ items.
Proof.
  induction items as [|v items IH]; simpl.
  - split; [lia | by intros ?%elem_of_nil].
  - rewrite elem_of_cons.
    destruct (strict_equals_string v s) eqn:Hv.
    + apply strict_equals_string_true in Hv as ->. split; [by left | lia].
    + assert (Hne : JString s ≠ v).
      { intros <-. by rewrite (proj2 (strict_equals_string_true _ _)) in Hv. }
      case_decide as Hi.
      * rewrite Hi in IH. split; [lia|]. intros [?|Hin]; [done|].
        apply IH in Hin. lia.
      * destruct (indexOf_range items s) as [?|Hpos]; [done|].
        split; [intros _; right; by apply IH | lia].
Qed.

Lemma isAddon_addon_shaped (this : PackageInfo) :
  isAddon this = addon_shaped (pkg this).
Proof.
  unfold isAddon, addon_shaped.
  destruct (JsObject.get _ _) as [[| | | |keywords|]|]; try done.
  destruct (declares_keyword keywords) eqn:Hdecl.
  - apply bool_decide_eq_true, indexOf_found.
    apply existsb_exists in Hdecl as (v & Hin & Hv).
    destruct v; try done. apply bool_decide_eq_true in Hv as ->.
    by apply list_elem_of_In.
  - apply bool_decide_eq_false. intros Hin%indexOf_found.
    assert (Htrue : declares_keyword keywords = true); [|congruence].
    apply existsb_exists. exists (JString "ember-addon").
    split; [by apply list_elem_of_In | by apply bool_decide_eq_true].
Qed.

Lemma getInvalidPackages_reported (σ : Store) l :
  getInvalidPackages σ l = reported σ l.
Proof.
  unfold getInvalidPackages, reported. apply List.filter_ext.
  intros r. by destruct (valid (σ r)).
Qed.

(** ** Collecting candidates: [addPackages] *)

Section addPackages.
Variables (excludeFn : loc → bool).

Lemma push_all (l acc : list loc) :
  fold_left (λ acc pkgInfo, acc ++ [pkgInfo]) l acc = acc ++ l.
Proof.
  revert acc. induction l as [|x l IH]; intros acc; simpl.
  - by rewrite app_nil_r.
  - rewrite IH. by rewrite <- app_assoc.
Qed.

Lemma addPackages_null acc f : addPackages acc None f = acc.
Proof. done. Qed.

Lemma addPackages_array acc l :
  addPackages acc (Some (AsArray l)) None = acc ++ l.
Proof. apply push_all. Qed.

Lemma addPackages_array_exclude acc l :
  addPackages acc (Some (AsArray l)) (Some excludeFn)
  = acc ++ List.filter (kept excludeFn) l.
Proof. apply push_all. Qed.

Lemma addPackages_object_entries (o entries : JsObject.t loc) acc :
  (∀ k v, (k, v) ∈ entries → JsObject.get o k = Some v) →
  fold_left
    (λ acc name,
       match JsObject.get o name with
       | Some pkgInfo =>
           if negb (excludeFn pkgInfo) then acc ++ [pkgInfo] else acc
       | None => acc
       end)
    (JsObject.keys entries) acc
  = acc ++ List.filter (kept excludeFn) (JsObject.values entries).
Proof.
  revert acc. induction entries as [|[k v] entries IH]; intros acc Hget.
  - by rewrite app_nil_r.
  - cbn [JsObject.keys JsObject.values fmap list_fmap fold_left fst snd
         List.filter].
    rewrite (Hget k v) by left.
    fold (JsObject.keys entries). fold (JsObject.values entries).
    rewrite IH by (intros; apply Hget; by right).
    unfold kept at 2. destruct (negb (excludeFn v)); [|done].
    by rewrite <- app_assoc.
Qed.

Lemma addPackages_object acc (o : JsObject.t loc) :
  JsObject.wf o →
  addPackages acc (Some (AsObject o)) (Some excludeFn)
  = acc ++ List.filter (kept excludeFn) (JsObject.values o).
Proof.
  intros Hwf. apply addPackages_object_entries.
  intros k v. by apply JsObject_get_entry.
Qed.
End addPackages.

Lemma addPackages_listOf acc l :
  addPackages acc (AsArray <$> l) None = acc ++ listOf l.
Proof.
  destruct l as [l|]; simpl; [apply push_all | by rewrite app_nil_r].
Qed.

Lemma addPackages_valuesOf acc o excludeFn :
  wfOf o →
  addPackages acc (AsObject <$> o) (Some excludeFn)
  = acc ++ List.filter (kept excludeFn) (valuesOf o).
Proof.
  destruct o as [o|]; intros Hwf.
  - by apply addPackages_object.
  - simpl. by rewrite app_nil_r.
Qed.

(** C1.  On the PackageInfo of a project, [discoverProjectAddons] returns
    the concatenation, in this order, of: the node itself exactly when the
    project says it is an addon; the in-repo addons of [cliInfo] when there
    is one; the internal addons; the dependency packages whose manifest is
    addon-shaped; the dev-dependency packages whose manifest is
    addon-shaped; the in-repo addons.  When the project is an addon, the
    node comes first; so it does when the project's own manifest is
    addon-shaped and the project answers by that manifest. *)
Theorem discoverProjectAddons_order (σ : Store) (this : loc) (p : Project) :
  project (σ this) = Some p →
  wfOf (dependencyPackages (σ this)) →
  wfOf (devDependencyPackages (σ this)) →
  discoverProjectAddons σ this
  = Normal
      ((if isEmberCLIAddon p then [this] else [])
       ++ match cliInfo (σ this) with
          | Some cli => listOf (inRepoAddons (σ cli))
          | None => []
          end
       ++ listOf (internalAddons (σ this))
       ++ List.filter (λ r, addon_shaped (pkg (σ r)))
            (valuesOf (dependencyPackages (σ this)))
       ++ List.filter (λ r, addon_shaped (pkg (σ r)))
            (valuesOf (devDependencyPackages (σ this)))
       ++ listOf (inRepoAddons (σ this)))
  ∧ (isEmberCLIAddon p = true →
     ∃ rest, discoverProjectAddons σ this = Normal (this :: rest))
  ∧ (isEmberCLIAddon p = addon_shaped (pkg (σ this)) →
     addon_shaped (pkg (σ this)) = true →
     ∃ rest, discoverProjectAddons σ this = Normal (this :: rest)).
Proof.
  intros Hp Hdeps Hdev.
  assert (Hfilter : ∀ l,
    List.filter (kept (λ r, negb (isAddon (σ r)))) l
    = List.filter (λ r, addon_shaped (pkg (σ r))) l).
  { intros l. apply List.filter_ext. intros r. unfold kept.
    by rewrite negb_involutive, isAddon_addon_shaped. }
  assert (Hcli : ∀ acc,
    addPackages acc
      match cliInfo (σ this) with
      | Some cli => AsArray <$> inRepoAddons (σ cli)
      | None => None
      end None
    = acc ++ match cliInfo (σ this) with
             | Some cli => listOf (inRepoAddons (σ cli))
             | None => []
             end).
  { intros acc. destruct (cliInfo (σ this)).
    - apply addPackages_listOf.
    - simpl. by rewrite app_nil_r. }
  assert (Hself : ∀ acc,
    addPackages acc
      (if isEmberCLIAddon p then Some (AsArray [this]) else None) None
    = acc ++ (if isEmberCLIAddon p then [this] else [])).
  { intros acc. destruct (isEmberCLIAddon p); simpl; [done|].
    by rewrite app_nil_r. }
  assert (Heq : discoverProjectAddons σ this = Normal
      ((if isEmberCLIAddon p then [this] else [])
       ++ match cliInfo (σ this) with
          | Some cli => listOf (inRepoAddons (σ cli))
          | None => []
          end
       ++ listOf (internalAddons (σ this))
       ++ List.filter (λ r, addon_shaped (pkg (σ r)))
            (valuesOf (dependencyPackages (σ this)))
       ++ List.filter (λ r, addon_shaped (pkg (σ r)))
            (valuesOf (devDependencyPackages (σ this)))
       ++ listOf (inRepoAddons (σ this)))).
  { unfold discoverProjectAddons. rewrite Hp. cbv zeta.
    rewrite Hself, Hcli, !addPackages_listOf, !addPackages_valuesOf by done.
    rewrite !Hfilter. simpl. by rewrite <- !app_assoc. }
  assert (Hfirst : isEmberCLIAddon p = true →
    ∃ rest, discoverProjectAddons σ this = Normal (this :: rest)).
  { intros Htrue. rewrite Heq, Htrue. simpl. eauto. }
  split; [done|]. split; [done|].
  intros Hagree Hshaped. apply Hfirst. congruence.
Qed.

(** C5.  On the PackageInfo of an addon, [discoverAddonAddons] returns the
    dependency packages whose manifest is addon-shaped and whose name is
    not 'ember-cli', followed by all the in-repo addons, whether or not
    their manifest is addon-shaped; the dev-dependency packages play no
    part. *)
Theorem discoverAddonAddons_sources (σ : Store) (this : loc) :
  wfOf (dependencyPackages (σ this)) →
  discoverAddonAddons σ this
  = List.filter
      (λ r, addon_shaped (pkg (σ r))
            && negb (bool_decide (pkg_name (pkg (σ r)) = "ember-cli"%string)))
      (valuesOf (dependencyPackages (σ this)))
    ++ listOf (inRepoAddons (σ this))
  ∧ ∀ devDependencies,
      discoverAddonAddons
        (<[this := set_devDependencyPackages devDependencies (σ this)]> σ) this
      = discoverAddonAddons σ this.
Proof.
  intros Hdeps.
  assert (Heq : ∀ σ' : Store,
    wfOf (dependencyPackages (σ' this)) →
    discoverAddonAddons σ' this
    = List.filter
        (λ r, addon_shaped (pkg (σ' r))
              && negb (bool_decide
                         (pkg_name (pkg (σ' r)) = "ember-cli"%string)))
        (valuesOf (dependencyPackages (σ' this)))
      ++ listOf (inRepoAddons (σ' this))).
  { intros σ' Hwf. unfold discoverAddonAddons. cbv zeta.
    rewrite addPackages_valuesOf, addPackages_listOf by done. simpl.
    f_equal. apply List.filter_ext. intros r. unfold kept, name.
    by rewrite negb_orb, negb_involutive, isAddon_addon_shaped. }
  split; [by apply Heq|].
  intros dev. set (σ' := <[this := _]> σ).
  assert (Hsame : ∀ r, pkg (σ' r) = pkg (σ r)).
  { intros r. unfold σ'. destruct (decide (this = r)) as [->|Hne].
    - by rewrite fn_lookup_insert.
    - by rewrite fn_lookup_insert_ne. }
  assert (Hthis : σ' this = set_devDependencyPackages dev (σ this))
    by apply fn_lookup_insert.
  rewrite !Heq; [|done|by rewrite Hthis].
  rewrite Hthis. simpl. f_equal. apply List.filter_ext. intros r.
  by rewrite Hsame.
Qed.

(** ** Resolving dependencies: [addDependencies] *)

Ltac run_M :=
  unfold mbind, mret, M_bind, M_ret, read, write, get_store,
    call_nodeModules_findPackage, call_cache_findPackage,
    call_ui_writeWarnLine, emit in *;
  simpl in *.

Section addDependencies.
Variable path : PathModule.

Lemma addDependencies_body_run this n pk ms w :
  addDependencies_body path this n (pk, ms) w
  = (match resolution path (store w this) n with
     | Some p => (<[n := p]> pk, ms)
     | None => (pk, ms ++ [n])
     end,
     {| store := store w;
        log := log w ++ lookups path (store w this) n |}).
Proof.
  unfold addDependencies_body, resolution, lookups. run_M.
  destruct w as [σ lg]; simpl.
  destruct (nodeModules (σ this)) as [nm|]; simpl.
  - destruct (findPackage nm n); simpl; [done|].
    rewrite <- app_assoc. simpl.
    by destruct (_findPackage _ _ _).
  - by destruct (_findPackage _ _ _).
Qed.

Lemma addDependencies_loop this names pk ms w :
  forEach names (addDependencies_body path this) (pk, ms) w
  = ((resolved path (store w this) names pk,
      ms ++ missing path (store w this) names),
     {| store := store w;
        log := log w ++ concat (lookups path (store w this) <$> names) |}).
Proof.
  revert pk ms w. induction names as [|n names IH]; intros pk ms w.
  - destruct w. simpl. unfold mret, M_ret. by rewrite !app_nil_r.
  - cbn [forEach]. unfold mbind, M_bind.
    rewrite addDependencies_body_run.
    unfold resolved, missing, resolves. simpl.
    destruct (resolution path (store w this) n) as [p|] eqn:Hres.
    + rewrite IH. simpl. by rewrite <- app_assoc.
    + rewrite IH. simpl. by rewrite <- !app_assoc.
Qed.

Lemma addDependencies_run this (D : JsObject.t string) w :
  JsObject.keys D ≠ [] →
  addDependencies path this (Some D) w
  = (Some (resolved path (store w this) (JsObject.keys D) ∅),
     {| store :=
          record_missing (store w) this
            (missing path (store w this) (JsObject.keys D));
        log :=
          log w ++ concat (lookups path (store w this) <$> JsObject.keys D)
     |}).
Proof.
  intros Hne. unfold addDependencies.
  rewrite decide_False by (by destruct (JsObject.keys D)).
  unfold mbind at 1. unfold M_bind at 1.
  rewrite addDependencies_loop. unfold record_missing. simpl.
  destruct (decide _); [|done].
  unfold addError. run_M. done.
Qed.

Lemma resolved_lookup self names pk n :
  resolved path self names pk !! n
  = if decide (n ∈ names)
    then match resolution path self n with
         | Some p => Some p
         | None => pk !! n
         end
    else pk !! n.
Proof.
  unfold resolved. revert pk.
  induction names as [|k names IH]; intros pk; cbn [fold_left].
  - case_decide as Hin; [by apply elem_of_nil in Hin | done].
  - rewrite IH.
    destruct (decide (k = n)) as [->|Hkn].
    + rewrite (decide_True (P := n ∈ n :: names)) by left.
      destruct (resolution path self n) as [p|] eqn:Hres.
      * destruct (decide (n ∈ names)); [done|].
        by rewrite lookup_insert_eq.
      * by destruct (decide (n ∈ names)).
    + assert (Hpk : match resolution path self k with
                    | Some p => <[k := p]> pk
                    | None => pk
                    end !! n = pk !! n).
      { destruct (resolution path self k); [|done].
        by rewrite lookup_insert_ne. }
      rewrite Hpk.
      destruct (decide (n ∈ names)) as [Hin|Hnin].
      * by rewrite (decide_True (P := n ∈ k :: names)) by (by right).
      * rewrite (decide_False (P := n ∈ k :: names)); [done|].
        intros [?|?]%elem_of_cons; congruence.
Qed.

Lemma resolved_lookup_empty self names n :
  resolved path self names ∅ !! n
  = if decide (n ∈ names) then resolution path self n else None.
Proof.
  rewrite resolved_lookup, lookup_empty.
  destruct (decide _); [|done]. by destruct (resolution _ _ _).
Qed.

Lemma elem_of_missing self names n :
  n ∈ missing path self names
  ↔ n ∈ names ∧ resolution path self n = None.
Proof.
  unfold missing, resolves.
  rewrite list_elem_of_In, List.filter_In, <- list_elem_of_In.
  rewrite negb_true_iff, bool_decide_eq_false, <- eq_None_not_Some.
  done.
Qed.

Lemma missing_nil self names :
  (∀ n, n ∈ names → is_Some (resolution path self n)) →
  missing path self names = [].
Proof.
  intros Hall. destruct (missing path self names) as [|n ms] eqn:Hms;
    [done|].
  assert (Hn : n ∈ missing path self names) by (rewrite Hms; left).
  apply elem_of_missing in Hn as [Hin Hnone].
  apply Hall in Hin as [? ?]. congruence.
Qed.

Lemma missing_all self names :
  (∀ n, n ∈ names → resolution path self n = None) →
  missing path self names = names.
Proof.
  intros Hall. unfold missing, resolves.
  induction names as [|n names IH]; [done|]. simpl.
  rewrite bool_decide_false.
  - simpl. f_equal. apply IH. intros; apply Hall; by right.
  - rewrite (Hall n) by left. by intros [? ?].
Qed.
End addDependencies.

Lemma resolved_none path self names :
  (∀ n, n ∈ names → resolution path self n = None) →
  resolved path self names ∅ = ∅.
Proof.
  intros Hall. apply map_eq. intros n.
  rewrite resolved_lookup_empty, lookup_empty.
  case_decide; [by apply Hall | done].
Qed.

Lemma resolved_dom path self names :
  (∀ n, n ∈ names → is_Some (resolution path self n)) →
  dom (resolved path self names ∅) = list_to_set names.
Proof.
  intros Hall. apply set_eq. intros n.
  rewrite elem_of_dom, resolved_lookup_empty, elem_of_list_to_set.
  case_decide as Hin.
  - split; [done | intros _; by apply Hall].
  - split; [by intros [? ?] | done].
Qed.

Lemma record_missing_errors σ this ms :
  ms ≠ [] →
  errors (record_missing σ this ms this)
  = errors (σ this)
    ++ [{| ErrorList.type := Errors.ERROR_DEPENDENCIES_MISSING;
           ErrorList.data := Errors.Names ms |}]
  ∧ valid (record_missing σ this ms this) = valid (σ this)
  ∧ ∀ r, r ≠ this → record_missing σ this ms r = σ r.
Proof.
  intros Hne. unfold record_missing.
  rewrite decide_True by (destruct ms; [done | simpl; lia]).
  rewrite fn_lookup_insert. repeat split.
  intros r Hr. by rewrite fn_lookup_insert_ne.
Qed.

(** C7.  [addDependencies] answers null, and leaves the node as it is, both
    for an absent dependency spec and for one that declares no name. *)
Theorem addDependencies_nothing_declared (path : PathModule) (this : loc)
    (w : World) :
  addDependencies path this None w = (None, w)
  ∧ addDependencies path this (Some []) w = (None, w).
Proof. split; reflexivity. Qed.

(** C8.  When every name a non-empty dependency spec declares resolves,
    [addDependencies] answers a mapping with as many entries as the spec
    declares names, each declared name mapped to what it resolves to, and
    records nothing on the node. *)
Theorem addDependencies_all_resolve (path : PathModule) (this : loc)
    (D : JsObject.t string) (w : World) :
  JsObject.wf D →
  JsObject.keys D ≠ [] →
  (∀ n, n ∈ JsObject.keys D → is_Some (resolution path (store w this) n)) →
  ∃ packages w',
    addDependencies path this (Some D) w = (Some packages, w')
    ∧ size packages = length D
    ∧ (∀ n, n ∈ JsObject.keys D →
         packages !! n = resolution path (store w this) n)
    ∧ (∀ n, n ∉ JsObject.keys D → packages !! n = None)
    ∧ store w' = store w.
Proof.
  intros Hwf Hne Hall. eexists _, _.
  split; [by apply addDependencies_run|].
  split; [|split; [|split]].
  - rewrite <- size_dom, resolved_dom by done.
    rewrite size_list_to_set by done.
    unfold JsObject.keys. by rewrite length_fmap.
  - intros n Hn. by rewrite resolved_lookup_empty, decide_True.
  - intros n Hn. by rewrite resolved_lookup_empty, decide_False.
  - simpl. rewrite missing_nil by done. reflexivity.
Qed.

(** C2.  When some name a dependency spec declares does not resolve,
    [addDependencies] returns normally with the mapping of exactly the
    declared names that resolve, and records exactly one error on the node,
    of kind "dependencies missing", carrying exactly the names that do not
    resolve; the node stays as valid as it was. *)
Theorem addDependencies_some_missing (path : PathModule) (this : loc)
    (D : JsObject.t string) (w : World) :
  (∃ n, n ∈ JsObject.keys D ∧ resolution path (store w this) n = None) →
  ∃ packages ms w',
    addDependencies path this (Some D) w = (Some packages, w')
    ∧ errors (store w' this)
      = errors (store w this)
        ++ [{| ErrorList.type := Errors.ERROR_DEPENDENCIES_MISSING;
               ErrorList.data := Errors.Names ms |}]
    ∧ (∀ n, n ∈ ms
         ↔ n ∈ JsObject.keys D ∧ resolution path (store w this) n = None)
    ∧ (∀ n, packages !! n
         = if decide (n ∈ JsObject.keys D)
           then resolution path (store w this) n else None)
    ∧ valid (store w' this) = valid (store w this)
    ∧ (∀ r, r ≠ this → store w' r = store w r).
Proof.
  intros (n0 & Hin0 & Hnone0).
  assert (Hkeys : JsObject.keys D ≠ []).
  { intros Heq. rewrite Heq in Hin0. by apply elem_of_nil in Hin0. }
  assert (Hms : missing path (store w this) (JsObject.keys D) ≠ []).
  { intros Heq. assert (Hin : n0 ∈ missing path (store w this)
                                (JsObject.keys D))
      by by apply elem_of_missing.
    rewrite Heq in Hin. by apply elem_of_nil in Hin. }
  destruct (record_missing_errors (store w) this _ Hms)
    as (Herr & Hvalid & Hothers).
  eexists _, (missing path (store w this) (JsObject.keys D)), _.
  split; [by apply addDependencies_run|]. simpl.
  split; [done|]. split; [apply elem_of_missing|].
  split; [apply resolved_lookup_empty|]. done.
Qed.

(** C10.  When no name of a non-empty dependency spec resolves,
    [addDependencies] answers an empty mapping, not the null it answers for
    an absent or empty spec, and records the missing-dependencies error with
    all the declared names. *)
Theorem addDependencies_none_resolve (path : PathModule) (this : loc)
    (D : JsObject.t string) (w : World) :
  JsObject.keys D ≠ [] →
  (∀ n, n ∈ JsObject.keys D → resolution path (store w this) n = None) →
  ∃ w',
    addDependencies path this (Some D) w = (Some ∅, w')
    ∧ errors (store w' this)
      = errors (store w this)
        ++ [{| ErrorList.type := Errors.ERROR_DEPENDENCIES_MISSING;
               ErrorList.data := Errors.Names (JsObject.keys D) |}]
    ∧ (addDependencies path this (Some D) w).1
      ≠ (addDependencies path this None w).1
    ∧ (addDependencies path this (Some D) w).1
      ≠ (addDependencies path this (Some []) w).1.
Proof.
  intros Hkeys Hall.
  assert (Hrun := addDependencies_run path this D w Hkeys).
  rewrite resolved_none, missing_all in Hrun by done.
  eexists. split; [exact Hrun|]. rewrite Hrun. simpl.
  split; [|done].
  by destruct (record_missing_errors (store w) this _ Hkeys) as (-> & _).
Qed.

(** C6.  A declared name that the node's own node_modules index resolves is
    mapped to the answer of the index, and the cache's ascending-directory
    search is not called for that name, whatever that search would answer. *)
Theorem addDependencies_index_hit (path : PathModule) (this : loc)
    (D : JsObject.t string) (w : World) (nm : NodeModulesList)
    (n : string) (p : loc) :
  nodeModules (store w this) = Some nm →
  n ∈ JsObject.keys D →
  findPackage nm n = Some p →
  ∃ packages evs w',
    addDependencies path this (Some D) w = (Some packages, w')
    ∧ packages !! n = Some p
    ∧ log w' = log w ++ evs
    ∧ ∀ dir, Call_cache_findPackage n dir ∉ evs.
Proof.
  intros Hnm Hin Hfind.
  assert (Hkeys : JsObject.keys D ≠ []).
  { intros Heq. rewrite Heq in Hin. by apply elem_of_nil in Hin. }
  eexists _, _, _. split; [by apply addDependencies_run|].
  split; [|split; [reflexivity|]].
  - rewrite resolved_lookup_empty, decide_True by done.
    unfold resolution. by rewrite Hnm, Hfind.
  - intros dir Hev.
    apply list_elem_of_In, in_concat in Hev as (evs & Hevs & Hev).
    apply list_elem_of_In in Hev, Hevs.
    apply list_elem_of_fmap in Hevs as (n' & -> & _).
    unfold lookups in Hev. rewrite Hnm in Hev.
    apply elem_of_cons in Hev as [Hev|Hev]; [done|].
    destruct (findPackage nm n') eqn:Hfind'.
    + by apply elem_of_nil in Hev.
    + apply list_elem_of_singleton in Hev. injection Hev as -> _.
      congruence.
Qed.

(** ** Building the addon map: [generateAddonPackages] *)

Lemma generateAddonPackages_fold σ excludeFn k l (m0 : gmap string AddonInfo.t) :
  fold_left
    (λ packageMap pkgInfo,
       let addonInfo :=
         AddonInfo.new (name (σ pkgInfo)) (realPath (σ pkgInfo))
           (pkg (σ pkgInfo)) in
       if match excludeFn with
          | Some excludeFn => negb (excludeFn addonInfo)
          | None => true
          end
       then <[name (σ pkgInfo) := addonInfo]> packageMap
       else packageMap)
    (getValidPackages σ l) m0 !! k
  = match last (admitted_named σ excludeFn k l) with
    | Some r => Some (addonInfoOf σ r)
    | None => m0 !! k
    end.
Proof.
  unfold getValidPackages, admitted_named. revert m0.
  induction l as [|x l IH]; intros m0; [done|].
  cbn [List.filter].
  assert (Hadm : admitted σ excludeFn x
                 = valid (σ x)
                   && match excludeFn with
                      | Some f => negb (f (addonInfoOf σ x))
                      | None => true
                      end).
  { unfold admitted, rejects. by destruct excludeFn. }
  rewrite Hadm. clear Hadm.
  destruct (valid (σ x)); cbn [andb fold_left]; [|apply IH].
  rewrite IH. clear IH. change (AddonInfo.new _ _ _) with (addonInfoOf σ x).
  destruct (match excludeFn with
            | Some f => negb (f (addonInfoOf σ x))
            | None => true
            end); cbn [andb]; [|done].
  case_bool_decide as Hk.
  - rewrite last_cons. subst k. rewrite lookup_insert_eq.
    by destruct (last _).
  - by rewrite lookup_insert_ne.
Qed.

Lemma generateAddonPackages_lookup σ l excludeFn k :
  generateAddonPackages σ l excludeFn !! k
  = addonInfoOf σ <$> last (admitted_named σ excludeFn k l).
Proof.
  unfold generateAddonPackages. cbv zeta.
  rewrite generateAddonPackages_fold, lookup_empty.
  by destruct (last _).
Qed.

Lemma elem_of_admitted_named σ excludeFn k l r :
  r ∈ admitted_named σ excludeFn k l
  ↔ r ∈ l ∧ valid (σ r) = true
    ∧ rejects excludeFn (addonInfoOf σ r) = false ∧ name (σ r) = k.
Proof.
  unfold admitted_named, admitted.
  rewrite list_elem_of_In, List.filter_In, <- list_elem_of_In.
  rewrite !andb_true_iff, negb_true_iff, bool_decide_eq_true.
  tauto.
Qed.

(** C3.  The addon map holds, under each name, the AddonRecord of the last
    candidate of that name that is valid and whose record the optional
    exclude function does not reject: so no invalid candidate is in the
    map, every valid candidate whose record is not rejected has its name as
    a key, and of two such candidates of one name the later one is the one
    in the map. *)
Theorem generateAddonPackages_map (σ : Store) (l : list loc)
    (excludeFn : option (AddonInfo.t → bool)) :
  let packageMap := generateAddonPackages σ l excludeFn in
  (∀ k, packageMap !! k
        = addonInfoOf σ <$> last (admitted_named σ excludeFn k l))
  ∧ (∀ k a, packageMap !! k = Some a →
       ∃ r, r ∈ l ∧ valid (σ r) = true ∧ name (σ r) = k
            ∧ a = AddonInfo.new (name (σ r)) (realPath (σ r)) (pkg (σ r))
            ∧ rejects excludeFn a = false)
  ∧ (∀ r, r ∈ l → valid (σ r) = true →
       rejects excludeFn (addonInfoOf σ r) = false →
       is_Some (packageMap !! name (σ r)))
  ∧ (∀ l1 r l2, l = l1 ++ r :: l2 →
       valid (σ r) = true →
       rejects excludeFn (addonInfoOf σ r) = false →
       (∀ r', r' ∈ l2 → name (σ r') = name (σ r) →
              valid (σ r') = false
              ∨ rejects excludeFn (addonInfoOf σ r') = true) →
       packageMap !! name (σ r) = Some (addonInfoOf σ r)).
Proof.
  intros packageMap. unfold packageMap.
  split; [apply generateAddonPackages_lookup|]. split; [|split].
  - intros k a. rewrite generateAddonPackages_lookup.
    destruct (last _) as [r|] eqn:Hlast; [|done].
    intros [= <-]. apply last_Some_elem_of in Hlast.
    apply elem_of_admitted_named in Hlast as (? & ? & ? & ?).
    exists r. done.
  - intros r Hin Hvalid Hrej. rewrite generateAddonPackages_lookup.
    apply fmap_is_Some, last_is_Some.
    intros Hnil.
    assert (Hr : r ∈ admitted_named σ excludeFn (name (σ r)) l)
      by by apply elem_of_admitted_named.
    rewrite Hnil in Hr. by apply elem_of_nil in Hr.
  - intros l1 r l2 -> Hvalid Hrej Hlater.
    rewrite generateAddonPackages_lookup.
    unfold admitted_named. rewrite List.filter_app. cbn [List.filter].
    unfold admitted at 2. rewrite Hvalid, Hrej, bool_decide_true by done.
    cbn [negb andb].
    fold (admitted_named σ excludeFn (name (σ r)) l2).
    assert (Hnil : admitted_named σ excludeFn (name (σ r)) l2 = []).
    { destruct (admitted_named σ excludeFn (name (σ r)) l2)
        as [|r' rs] eqn:Hrs; [done|].
      assert (Hr' : r' ∈ admitted_named σ excludeFn (name (σ r)) l2)
        by (rewrite Hrs; left).
      apply elem_of_admitted_named in Hr' as (Hin & Hv & Hnr & Hname).
      destruct (Hlater r' Hin Hname); congruence. }
    rewrite Hnil. by rewrite last_snoc.
Qed.

(** ** Reporting invalid candidates: [dumpInvalidAddonPackages] *)

(** Setting the flag of a node changes no other field of any node. *)
Lemma set_flag_frame (σ : Store) (this : loc) (b : bool) (r : loc) :
  let σ' : Store :=
    <[this := set_hasDumpedInvalidAddonPackages b (σ this)]> σ in
  valid (σ' r) = valid (σ r)
  ∧ realPath (σ' r) = realPath (σ r)
  ∧ pkg (σ' r) = pkg (σ r)
  ∧ project (σ' r) = project (σ r)
  ∧ cache (σ' r) = cache (σ r).
Proof.
  intros σ'. unfold σ'. destruct (decide (this = r)) as [->|Hne].
  - by rewrite fn_lookup_insert.
  - by rewrite fn_lookup_insert_ne.
Qed.

Lemma getInvalidPackages_ext (σ σ' : Store) l :
  (∀ r, valid (σ' r) = valid (σ r)) →
  getInvalidPackages σ' l = getInvalidPackages σ l.
Proof.
  intros Hv. unfold getInvalidPackages. apply List.filter_ext.
  intros r. by rewrite Hv.
Qed.

Lemma generateAddonPackages_ext (σ σ' : Store) l excludeFn :
  (∀ r, valid (σ' r) = valid (σ r)) →
  (∀ r, realPath (σ' r) = realPath (σ r)) →
  (∀ r, pkg (σ' r) = pkg (σ r)) →
  generateAddonPackages σ' l excludeFn = generateAddonPackages σ l excludeFn.
Proof.
  intros Hv Hp Hpkg. apply map_eq. intros k.
  rewrite !generateAddonPackages_lookup.
  assert (Hinfo : ∀ r, addonInfoOf σ' r = addonInfoOf σ r).
  { intros r. unfold addonInfoOf, name. by rewrite Hp, Hpkg. }
  assert (Hnamed : admitted_named σ' excludeFn k l
                   = admitted_named σ excludeFn k l).
  { unfold admitted_named, admitted. apply List.filter_ext.
    intros r. unfold name. by rewrite Hv, Hinfo, Hpkg. }
  rewrite Hnamed. destruct (last _); [|done]. simpl. by rewrite Hinfo.
Qed.

Section dumpInvalidAddonPackages.
Variable path : PathModule.

Lemma dump_lines this (l : list loc) w :
  forEach l (dumpInvalidAddonPackages_body path this) tt w
  = (tt,
     {| store := store w;
        log :=
          log w
          ++ ((λ r, Call_ui_writeWarnLine
                      (excluded_line path (store w this) (store w r)))
              <$> l) |}).
Proof.
  revert w. induction l as [|x l IH]; intros [σ lg].
  - simpl. unfold mret, M_ret. by rewrite app_nil_r.
  - cbn [forEach]. unfold mbind at 1. unfold M_bind at 1.
    unfold dumpInvalidAddonPackages_body at 1. run_M.
    rewrite IH. simpl. by rewrite <- app_assoc.
Qed.

Lemma dump_again this l w :
  _hasDumpedInvalidAddonPackages (store w this) = true →
  dumpInvalidAddonPackages path this l w = (tt, w).
Proof.
  intros Hflag. unfold dumpInvalidAddonPackages. run_M.
  by rewrite Hflag.
Qed.

Lemma dump_first this l w :
  _hasDumpedInvalidAddonPackages (store w this) = false →
  dumpInvalidAddonPackages path this l w
  = (tt,
     {| store :=
          <[this := set_hasDumpedInvalidAddonPackages true (store w this)]>
            (store w);
        log := log w ++ first_dump path (store w) this l |}).
Proof.
  intros Hflag. destruct w as [σ lg]. simpl in Hflag.
  unfold dumpInvalidAddonPackages, first_dump, has_channel, warning_block.
  unfold mbind at 1. unfold M_bind at 1. unfold read at 1. simpl.
  rewrite Hflag. run_M.
  set (σ' := <[this := _]> σ).
  assert (Hfr := set_flag_frame σ this true). fold σ' in Hfr. simpl in Hfr.
  assert (Hinv : getInvalidPackages σ' l = getInvalidPackages σ l).
  { apply getInvalidPackages_ext. intros r. apply Hfr. }
  destruct (Hfr this) as (_ & Hpath & _ & Hproj & Hcache).
  rewrite Hinv, Hcache.
  destruct (ui (cache (σ this))) as [u|]; simpl.
  - assert (Hlen : bool_decide (0 < length (getInvalidPackages σ l))
                   = bool_decide (getInvalidPackages σ l ≠ [])).
    { apply bool_decide_ext. destruct (getInvalidPackages σ l); simpl.
      - split; [lia | done].
      - split; [done | lia]. }
    rewrite Hlen.
    destruct (bool_decide _ && writeWarnLine u); simpl.
    + rewrite dump_lines. simpl. rewrite <- app_assoc. simpl.
      unfold header_line, role. rewrite Hproj, Hpath.
      do 4 f_equal. apply list_fmap_ext. intros _ r _.
      unfold excluded_line. rewrite Hpath.
      by destruct (Hfr r) as (_ & -> & _).
    + by rewrite app_nil_r.
  - by rewrite andb_false_r, app_nil_r.
Qed.

(** The flag of a node, once set, stays set. *)
Lemma step_keeps_flag w w' r :
  step path w w' →
  _hasDumpedInvalidAddonPackages (store w r) = true →
  _hasDumpedInvalidAddonPackages (store w' r) = true.
Proof.
  intros Hstep Hflag. destruct Hstep as [r' D w|r' l w|w w' Hext].
  - destruct D as [D|]; [|done].
    destruct (decide (JsObject.keys D = [])) as [Hnil|Hne].
    + unfold addDependencies. by rewrite Hnil.
    + rewrite addDependencies_run by done. simpl.
      unfold record_missing. case_decide; [|done].
      destruct (decide (r' = r)) as [->|Hrr].
      * by rewrite fn_lookup_insert.
      * by rewrite fn_lookup_insert_ne.
  - destruct (_hasDumpedInvalidAddonPackages (store w r')) eqn:Hr'.
    + by rewrite dump_again.
    + rewrite dump_first by done. simpl.
      destruct (decide (r' = r)) as [->|Hrr].
      * by rewrite fn_lookup_insert.
      * by rewrite fn_lookup_insert_ne.
  - by apply Hext.
Qed.

Lemma steps_keep_flag w w' r :
  rtc (step path) w w' →
  _hasDumpedInvalidAddonPackages (store w r) = true →
  _hasDumpedInvalidAddonPackages (store w' r) = true.
Proof.
  induction 1 as [|w1 w2 w3 Hstep _ IH]; [done|].
  intros Hflag. apply IH. by eapply step_keeps_flag.
Qed.
End dumpInvalidAddonPackages.

(** C4.  Building the addon map of an owner twice from the same candidate
    list ([generateAddonPackages], then [dumpInvalidAddonPackages], as
    Project and Addon do) gives the same map both times.  When some
    candidate has [valid] false and the ui can write warning lines, the
    first run writes the warning block: the header line with the owner's
    role and realPath, then, for each candidate whose [valid] is false, in
    order, the line with its path relative to the owner; otherwise it
    writes nothing.  The second run writes nothing. *)
Theorem addon_map_build_twice (path : PathModule) (this : loc)
    (l : list loc) (excludeFn : option (AddonInfo.t → bool)) (w : World) :
  _hasDumpedInvalidAddonPackages (store w this) = false →
  let m1 := generateAddonPackages (store w) l excludeFn in
  let w1 := (dumpInvalidAddonPackages path this l w).2 in
  let m2 := generateAddonPackages (store w1) l excludeFn in
  let w2 := (dumpInvalidAddonPackages path this l w1).2 in
  m2 = m1
  ∧ log w1
    = log w
      ++ (if bool_decide (reported (store w) l ≠ [])
             && has_channel (store w this)
          then
            Call_ui_writeWarnLine (header_line (store w this))
            :: ((λ r, Call_ui_writeWarnLine
                        (excluded_line path (store w this) (store w r)))
                <$> reported (store w) l)
          else [])
  ∧ log w2 = log w1.
Proof.
  intros Hflag. cbv zeta. rewrite dump_first by done. simpl.
  split; [|split].
  - apply generateAddonPackages_ext; intros r;
      apply (set_flag_frame (store w) this true r).
  - unfold first_dump, warning_block.
    by rewrite getInvalidPackages_reported.
  - rewrite dump_again; [done|]. simpl. by rewrite fn_lookup_insert.
Qed.

(** C9.  The first [dumpInvalidAddonPackages] on a node sets its flag
    whether or not it writes anything: when it finds no invalid candidate,
    or the ui cannot write warning lines, it writes nothing, and no later
    call on that node writes anything either, whatever candidates it is
    given and whatever ui is configured by then. *)
Theorem dump_silent_first_call_is_final (path : PathModule) (this : loc)
    (l : list loc) (w : World) :
  _hasDumpedInvalidAddonPackages (store w this) = false →
  getInvalidPackages (store w) l = [] ∨ has_channel (store w this) = false →
  ∃ w1,
    dumpInvalidAddonPackages path this l w = (tt, w1)
    ∧ log w1 = log w
    ∧ _hasDumpedInvalidAddonPackages (store w1 this) = true
    ∧ ∀ w2 l2, rtc (step path) w1 w2 →
        dumpInvalidAddonPackages path this l2 w2 = (tt, w2).
Proof.
  intros Hflag Hquiet. eexists. split; [by apply dump_first|]. simpl.
  assert (Hset : _hasDumpedInvalidAddonPackages
                   ((<[this := set_hasDumpedInvalidAddonPackages true
                                 (store w this)]> (store w)) this) = true)
    by by rewrite fn_lookup_insert.
  split; [|split; [done|]].
  - unfold first_dump. destruct Hquiet as [-> | ->].
    + by rewrite app_nil_r.
    + by rewrite andb_false_r, app_nil_r.
  - intros w2 l2 Hlater. apply dump_again.
    by apply (steps_keep_flag path _ _ this Hlater).
Qed.

(** * The small project, run *)

Ltac by_evaluation := apply (bool_decide_unpack _); vm_compute; exact I.

Ltac each_of H :=
  repeat (apply elem_of_cons in H as [->|H]);
  [.. | by apply elem_of_nil in H].

Example project_candidates :
  discoverProjectAddons Example.nodes 1 = Normal [1; 8; 3; 4; 6; 7]%positive.
Proof. reflexivity. Qed.

Example project_candidates_of_an_addon :
  discoverProjectAddons Example.nodes 4 = Throw TypeError.
Proof. reflexivity. Qed.

Example addon_candidates :
  discoverAddonAddons Example.nodes 4 = [10; 11]%positive.
Proof. reflexivity. Qed.

Example project_addon_map :
  let m := generateAddonPackages Example.nodes [1; 8; 3; 4; 6; 7]%positive None in
  m !! "ember-foo"%string = Some (addonInfoOf Example.nodes 4)
  ∧ m !! "ember-bar"%string = None
  ∧ size m = 5.
Proof. vm_compute. done. Qed.

Example project_warning :
  log (dumpInvalidAddonPackages Example.path 1 [1; 8; 3; 4; 6; 7]%positive
         Example.w0).2
  = [Call_ui_writeWarnLine "For project at path /work/my-app:";
     Call_ui_writeWarnLine
       "   Excluding invalid/malformed/missing addon at relative path '/work/my-app/node_modules/ember-bar'"].
Proof. reflexivity. Qed.

Example project_dependencies :
  let '(packages, w) :=
    addDependencies Example.path 1 (Some Example.dependencies) Example.w0 in
  (packages ≫= (.!! "ember-foo"%string)) = Some 4%positive
  ∧ (packages ≫= (.!! "lodash"%string)) = Some 5%positive
  ∧ name (Example.nodes 5%positive) = "lodash-es"%string
  ∧ (packages ≫= (.!! "lodash-es"%string)) = None
  ∧ (packages ≫= (.!! "left-pad"%string)) = None
  ∧ errors (store w 1%positive)
    = [{| ErrorList.type := Errors.ERROR_DEPENDENCIES_MISSING;
          ErrorList.data := Errors.Names ["left-pad"%string] |}]
  ∧ log w
    = [Call_nodeModules_findPackage "ember-foo";
       Call_nodeModules_findPackage "lodash";
       Call_cache_findPackage "lodash" "/work";
       Call_nodeModules_findPackage "left-pad";
       Call_cache_findPackage "left-pad" "/work"].
Proof. vm_compute. done. Qed.

(** ** The theorems at the small project *)

Lemma discoverProjectAddons_order_witness :
  project (Example.nodes 1%positive) = Some {| isEmberCLIAddon := true |}
  ∧ wfOf (dependencyPackages (Example.nodes 1%positive))
  ∧ wfOf (devDependencyPackages (Example.nodes 1%positive))
  ∧ addon_shaped (pkg (Example.nodes 1%positive)) = true
  ∧ addon_shaped (pkg (Example.nodes 4%positive)) = true
  ∧ addon_shaped (pkg (Example.nodes 5%positive)) = false
  ∧ discoverProjectAddons Example.nodes 1
    = Normal [1; 8; 3; 4; 6; 7]%positive.
Proof.
  assert (H1 : project (Example.nodes 1%positive)
               = Some {| isEmberCLIAddon := true |}) by reflexivity.
  assert (H2 : wfOf (dependencyPackages (Example.nodes 1%positive)))
    by by_evaluation.
  assert (H3 : wfOf (devDependencyPackages (Example.nodes 1%positive)))
    by by_evaluation.
  split; [exact H1|]. split; [exact H2|]. split; [exact H3|].
  split; [reflexivity|]. split; [reflexivity|]. split; [reflexivity|].
  destruct (discoverProjectAddons_order Example.nodes 1 _ H1 H2 H3)
    as [Heq _].
  rewrite Heq. reflexivity.
Defined.

Lemma discoverAddonAddons_sources_witness :
  wfOf (dependencyPackages (Example.nodes 4%positive))
  ∧ valuesOf (dependencyPackages (Example.nodes 4%positive))
    = [2; 10; 5]%positive
  ∧ addon_shaped (pkg (Example.nodes 2%positive)) = true
  ∧ addon_shaped (pkg (Example.nodes 11%positive)) = false
  ∧ discoverAddonAddons Example.nodes 4 = [10; 11]%positive.
Proof.
  assert (H : wfOf (dependencyPackages (Example.nodes 4%positive)))
    by by_evaluation.
  split; [exact H|]. split; [reflexivity|].
  split; [reflexivity|]. split; [reflexivity|].
  destruct (discoverAddonAddons_sources Example.nodes 4 H) as [Heq _].
  rewrite Heq. reflexivity.
Defined.

Lemma addDependencies_some_missing_witness :
  ∃ packages ms w',
    addDependencies Example.path 1 (Some Example.dependencies) Example.w0
    = (Some packages, w')
    ∧ errors (store w' 1%positive)
      = errors (Example.nodes 1%positive)
        ++ [{| ErrorList.type := Errors.ERROR_DEPENDENCIES_MISSING;
               ErrorList.data := Errors.Names ms |}]
    ∧ (∀ n, n ∈ ms
         ↔ n ∈ JsObject.keys Example.dependencies
           ∧ resolution Example.path (Example.nodes 1%positive) n = None)
    ∧ (∀ n, packages !! n
         = if decide (n ∈ JsObject.keys Example.dependencies)
           then resolution Example.path (Example.nodes 1%positive) n else None)
    ∧ valid (store w' 1%positive) = valid (Example.nodes 1%positive)
    ∧ (∀ r, r ≠ 1%positive → store w' r = Example.nodes r).
Proof.
  apply (addDependencies_some_missing Example.path 1 Example.dependencies
           Example.w0).
  exists "left-pad"%string. split; [by_evaluation | reflexivity].
Defined.

Lemma addDependencies_all_resolve_witness :
  ∃ packages w',
    addDependencies Example.path 1 (Some Example.installed) Example.w0
    = (Some packages, w')
    ∧ size packages = length Example.installed
    ∧ (∀ n, n ∈ JsObject.keys Example.installed →
         packages !! n = resolution Example.path (Example.nodes 1%positive) n)
    ∧ (∀ n, n ∉ JsObject.keys Example.installed → packages !! n = None)
    ∧ store w' = Example.nodes.
Proof.
  apply (addDependencies_all_resolve Example.path 1 Example.installed
           Example.w0).
  - by_evaluation.
  - discriminate.
  - intros n Hn. each_of Hn; vm_compute; eauto.
Defined.

Lemma addDependencies_none_resolve_witness :
  ∃ w',
    addDependencies Example.path 1 (Some Example.absent) Example.w0
    = (Some ∅, w')
    ∧ errors (store w' 1%positive)
      = errors (Example.nodes 1%positive)
        ++ [{| ErrorList.type := Errors.ERROR_DEPENDENCIES_MISSING;
               ErrorList.data :=
                 Errors.Names (JsObject.keys Example.absent) |}]
    ∧ (addDependencies Example.path 1 (Some Example.absent) Example.w0).1
      ≠ (addDependencies Example.path 1 None Example.w0).1
    ∧ (addDependencies Example.path 1 (Some Example.absent) Example.w0).1
      ≠ (addDependencies Example.path 1 (Some []) Example.w0).1.
Proof.
  apply (addDependencies_none_resolve Example.path 1 Example.absent
           Example.w0).
  - discriminate.
  - intros n Hn. each_of Hn; reflexivity.
Defined.

(** The index of my-app answers node 4 for ember-foo, where the cache's
    search would answer node 9. *)
Lemma addDependencies_index_hit_witness :
  _findPackage Example.the_cache "ember-foo" "/work" = Some 9%positive
  ∧ ∃ packages evs w',
      addDependencies Example.path 1 (Some Example.dependencies) Example.w0
      = (Some packages, w')
      ∧ packages !! "ember-foo"%string = Some 4%positive
      ∧ log w' = log Example.w0 ++ evs
      ∧ ∀ dir, Call_cache_findPackage "ember-foo" dir ∉ evs.
Proof.
  split; [reflexivity|].
  eapply (addDependencies_index_hit Example.path 1 Example.dependencies
            Example.w0 _ "ember-foo" 4).
  - reflexivity.
  - by_evaluation.
  - reflexivity.
Defined.

Lemma addon_map_build_twice_witness :
  let l := [1; 8; 3; 4; 6; 7]%positive in
  let m1 := generateAddonPackages Example.nodes l None in
  let w1 := (dumpInvalidAddonPackages Example.path 1 l Example.w0).2 in
  let m2 := generateAddonPackages (store w1) l None in
  let w2 := (dumpInvalidAddonPackages Example.path 1 l w1).2 in
  valid (Example.nodes 6%positive) = false
  ∧ m2 = m1
  ∧ log w1
    = [Call_ui_writeWarnLine "For project at path /work/my-app:";
       Call_ui_writeWarnLine
         "   Excluding invalid/malformed/missing addon at relative path '/work/my-app/node_modules/ember-bar'"]
  ∧ log w2 = log w1.
Proof.
  cbv zeta.
  destruct (addon_map_build_twice Example.path 1 [1; 8; 3; 4; 6; 7]%positive
              None Example.w0) as (Hmap & Hfirst & Hsecond);
    [reflexivity|].
  cbv zeta in Hmap, Hfirst, Hsecond.
  split; [reflexivity|]. split; [exact Hmap|].
  split; [|exact Hsecond].
  rewrite Hfirst. reflexivity.
Defined.

(** The first call on my-app is given only valid candidates; a later one is
    given the invalid ember-bar, and the ui can write warning lines. *)
Lemma dump_silent_first_call_is_final_witness :
  ∃ w1,
    dumpInvalidAddonPackages Example.path 1 [4%positive] Example.w0 = (tt, w1)
    ∧ log w1 = log Example.w0
    ∧ _hasDumpedInvalidAddonPackages (store w1 1%positive) = true
    ∧ ∀ w2 l2, rtc (step Example.path) w1 w2 →
        dumpInvalidAddonPackages Example.path 1 l2 w2 = (tt, w2).
Proof.
  apply (dump_silent_first_call_is_final Example.path 1 [4%positive]
           Example.w0).
  - reflexivity.
  - left. reflexivity.
Defined.

Example later_call_stays_silent :
  let w1 := (dumpInvalidAddonPackages Example.path 1 [4%positive]
               Example.w0).2 in
  getInvalidPackages (store w1) [4; 6]%positive = [6%positive]
  ∧ has_channel (store w1 1%positive) = true
  ∧ log (dumpInvalidAddonPackages Example.path 1 [4; 6]%positive w1).2 = [].
Proof. by vm_compute. Qed.

(** * More of the class *)

(** ** Recognizing an addon: [isAddon] *)


(** X1.  A package is an addon exactly when the keywords member of its
    manifest is an array one of whose elements is the string 'ember-addon';
    a keywords member of any other shape, or none, makes it no addon. *)
Theorem isAddon_keyword (this : PackageInfo) :
  isAddon this = true
  ↔ ∃ keywords,
      JsObject.get (pkg_members (pkg this)) "keywords"%string
      = Some (JArray keywords)
      ∧ JString "ember-addon" ∈ keywords.
Proof.
  unfold isAddon.
  destruct (JsObject.get _ _) as [[| | | |keywords|]|];
    try (split; [discriminate | by intros (? & [=] & _)]).
  rewrite bool_decide_eq_true, indexOf_found. split.
  - intros Hin. by exists keywords.
  - by intros (? & [= <-] & Hin).
Qed.

(** ** Arrays and maps of candidates: [addPackages] *)

(** X2.  A map of candidates contributes what the array of its values
    contributes, in the order of its keys, with or without an exclusion
    function. *)
Theorem addPackages_object_as_array (acc : list loc) (o : JsObject.t loc)
    (excludeFn : option (loc → bool)) :
  JsObject.wf o →
  addPackages acc (Some (AsObject o)) excludeFn
  = addPackages acc (Some (AsArray (JsObject.values o))) excludeFn.
Proof.
  intros Hwf. destruct excludeFn as [f|].
  - by rewrite addPackages_object, addPackages_array_exclude.
  - change (addPackages acc (Some (AsObject o)) None)
      with (addPackages acc (Some (AsObject o)) (Some (λ _, false))).
    rewrite addPackages_object, addPackages_array by done.
    f_equal. induction (JsObject.values o) as [|x l IH]; [done|].
    simpl. by rewrite IH.
Qed.

Lemma addPackages_object_as_array_witness :
  addPackages [1%positive]
    (Some (AsObject [("ember-foo"%string, 4%positive);
                     ("lodash"%string, 5%positive)]))
    (Some (λ r, negb (isAddon (Example.nodes r))))
  = addPackages [1%positive] (Some (AsArray [4; 5]%positive))
      (Some (λ r, negb (isAddon (Example.nodes r)))).
Proof.
  apply (addPackages_object_as_array [1%positive]
           [("ember-foo"%string, 4%positive); ("lodash"%string, 5%positive)]).
  by_evaluation.
Defined.

(** ** More on the addon map: [generateAddonPackages] *)

Lemma admitted_named_app (σ : Store) excludeFn k l1 l2 :
  admitted_named σ excludeFn k (l1 ++ l2)
  = admitted_named σ excludeFn k l1 ++ admitted_named σ excludeFn k l2.
Proof. apply List.filter_app. Qed.

Lemma admitted_named_nil (σ : Store) excludeFn k l :
  (∀ r, r ∈ l → name (σ r) = k →
        valid (σ r) = false ∨ rejects excludeFn (addonInfoOf σ r) = true) →
  admitted_named σ excludeFn k l = [].
Proof.
  intros Hnone.
  destruct (admitted_named σ excludeFn k l) as [|r rs] eqn:Hrs; [done|].
  assert (Hr : r ∈ admitted_named σ excludeFn k l) by (rewrite Hrs; left).
  apply elem_of_admitted_named in Hr as (Hin & Hv & Hnr & Hname).
  destruct (Hnone r Hin Hname); congruence.
Qed.

Lemma generateAddonPackages_last (σ : Store) excludeFn pre l1 r l2 :
  valid (σ r) = true →
  rejects excludeFn (addonInfoOf σ r) = false →
  (∀ r', r' ∈ l2 → name (σ r') = name (σ r) →
         valid (σ r') = false
         ∨ rejects excludeFn (addonInfoOf σ r') = true) →
  generateAddonPackages σ (pre ++ l1 ++ r :: l2) excludeFn !! name (σ r)
  = Some (addonInfoOf σ r).
Proof.
  intros Hvalid Hrej Hlater.
  rewrite generateAddonPackages_lookup, !admitted_named_app.
  change (r :: l2) with ([r] ++ l2).
  rewrite admitted_named_app, (admitted_named_nil _ _ _ l2) by done.
  assert (Hr : admitted_named σ excludeFn (name (σ r)) [r] = [r]).
  { unfold admitted_named, admitted. simpl.
    by rewrite Hvalid, Hrej, bool_decide_true. }
  rewrite Hr, app_nil_r, !app_assoc. by rewrite last_snoc.
Qed.

(** X3.  The map of a candidate list in two parts is the map of the second
    part, completed by the map of the first part for the names the second
    part does not provide. *)
Theorem generateAddonPackages_app (σ : Store) (l1 l2 : list loc)
    (excludeFn : option (AddonInfo.t → bool)) :
  generateAddonPackages σ (l1 ++ l2) excludeFn
  = generateAddonPackages σ l2 excludeFn
    ∪ generateAddonPackages σ l1 excludeFn.
Proof.
  apply map_eq. intros k.
  rewrite lookup_union, !generateAddonPackages_lookup.
  rewrite admitted_named_app, last_app.
  by destruct (last (admitted_named σ excludeFn k l2)),
              (last (admitted_named σ excludeFn k l1)).
Qed.






(** ** In-repo addons come last *)

Lemma discoverAddonAddons_suffix (σ : Store) (this : loc) :
  ∃ pre, discoverAddonAddons σ this
         = pre ++ listOf (inRepoAddons (σ this)).
Proof.
  unfold discoverAddonAddons. cbv zeta. rewrite addPackages_listOf. eauto.
Qed.

Lemma discoverProjectAddons_suffix (σ : Store) (this : loc) l :
  discoverProjectAddons σ this = Normal l →
  ∃ pre, l = pre ++ listOf (inRepoAddons (σ this)).
Proof.
  unfold discoverProjectAddons. destruct (project (σ this)); [|done].
  cbv zeta. rewrite addPackages_listOf. intros [= <-]. eauto.
Qed.

(** X6.  In both discoveries the in-repo addons are the last candidates, so
    they win in the addon map: a valid in-repo addon whose record is not
    rejected is the entry under its name, unless an in-repo addon after it
    has that name too, whatever the dependencies are named. *)
Theorem in_repo_addon_wins (σ : Store) (this : loc)
    (excludeFn : option (AddonInfo.t → bool)) (l1 l2 : list loc) (r : loc) :
  inRepoAddons (σ this) = Some (l1 ++ r :: l2) →
  valid (σ r) = true →
  rejects excludeFn (addonInfoOf σ r) = false →
  (∀ r', r' ∈ l2 → name (σ r') = name (σ r) →
         valid (σ r') = false
         ∨ rejects excludeFn (addonInfoOf σ r') = true) →
  generateAddonPackages σ (discoverAddonAddons σ this) excludeFn
    !! name (σ r) = Some (addonInfoOf σ r)
  ∧ ∀ l, discoverProjectAddons σ this = Normal l →
      generateAddonPackages σ l excludeFn !! name (σ r)
      = Some (addonInfoOf σ r).
Proof.
  intros Hrepo Hvalid Hrej Hlater. split.
  - destruct (discoverAddonAddons_suffix σ this) as [pre ->].
    rewrite Hrepo. simpl. by apply generateAddonPackages_last.
  - intros l [pre ->]%discoverProjectAddons_suffix.
    rewrite Hrepo. simpl. by apply generateAddonPackages_last.
Qed.

Lemma in_repo_addon_wins_witness :
  generateAddonPackages Example.nodes
    (discoverAddonAddons Example.nodes 1) None
    !! name (Example.nodes 7%positive)
  = Some (addonInfoOf Example.nodes 7)
  ∧ ∀ l, discoverProjectAddons Example.nodes 1 = Normal l →
      generateAddonPackages Example.nodes l None
        !! name (Example.nodes 7%positive)
      = Some (addonInfoOf Example.nodes 7).
Proof.
  apply (in_repo_addon_wins Example.nodes 1 None [] [] 7%positive).
  - reflexivity.
  - reflexivity.
  - reflexivity.
  - intros r' Hr'. by apply elem_of_nil in Hr'.
Defined.

(** ** More on resolving dependencies: [addDependencies] *)

Lemma set_errors_id p : set_errors (errors p) p = p.
Proof. by destruct p. Qed.

Lemma addDependencies_any path this D w :
  addDependencies path this D w
  = (if decide (declared D = []) then None
     else Some (resolved path (store w this) (declared D) ∅),
     {| store :=
          record_missing (store w) this
            (missing path (store w this) (declared D));
        log := log w ++ concat (lookups path (store w this) <$> declared D)
     |}).
Proof.
  destruct D as [D|]; [destruct (decide (JsObject.keys D = [])) as [Hnil|Hne]|].
  - unfold addDependencies, declared. simpl. rewrite Hnil.
    destruct w. simpl. unfold mret, M_ret. by rewrite app_nil_r.
  - rewrite addDependencies_run by done. unfold declared. simpl.
    by rewrite decide_False.
  - destruct w. simpl. unfold mret, M_ret. by rewrite app_nil_r.
Qed.

Lemma record_missing_this σ this ms :
  record_missing σ this ms this
  = set_errors
      (errors (σ this) ++ (if decide (ms = []) then [] else [missing_entry ms]))
      (σ this).
Proof.
  unfold record_missing. destruct ms as [|n ms].
  - simpl. by rewrite app_nil_r, set_errors_id.
  - rewrite decide_True by (simpl; lia). by rewrite fn_lookup_insert.
Qed.

Lemma record_missing_other σ this ms r :
  r ≠ this → record_missing σ this ms r = σ r.
Proof.
  intros Hr. unfold record_missing. case_decide; [|done].
  by rewrite fn_lookup_insert_ne.
Qed.

(** X7.  Whatever the dependency spec, [addDependencies] changes no other
    node, and of its own node only the error list, to which it adds at most
    one entry and from which it removes none. *)
Theorem addDependencies_frame (path : PathModule) (this : loc)
    (D : option (JsObject.t string)) (w : World) :
  let w' := (addDependencies path this D w).2 in
  (∀ r, r ≠ this → store w' r = store w r)
  ∧ ∃ new,
      store w' this = set_errors (errors (store w this) ++ new) (store w this)
      ∧ length new ≤ 1.
Proof.
  cbv zeta. rewrite addDependencies_any. simpl. split.
  - intros r Hr. by apply record_missing_other.
  - eexists. split; [apply record_missing_this|].
    case_decide; simpl; lia.
Qed.

Lemma missing_sublist path self names :
  missing path self names `sublist_of` names.
Proof.
  unfold missing. induction names as [|n names IH]; [done|]. simpl.
  destruct (negb _); by constructor.
Qed.

(** X8.  The error recorded for missing dependencies lists exactly the
    names that do not resolve, in the order the spec declares them, each
    once. *)
Theorem addDependencies_missing_in_order (path : PathModule) (this : loc)
    (D : JsObject.t string) (w : World) :
  JsObject.wf D →
  (∃ n, n ∈ JsObject.keys D ∧ resolution path (store w this) n = None) →
  ∃ ms,
    errors (store (addDependencies path this (Some D) w).2 this)
    = errors (store w this) ++ [missing_entry ms]
    ∧ ms
      = List.filter
          (λ n, bool_decide (resolution path (store w this) n = None))
          (JsObject.keys D)
    ∧ (∀ n, n ∈ ms
         ↔ n ∈ JsObject.keys D ∧ resolution path (store w this) n = None)
    ∧ ms `sublist_of` JsObject.keys D
    ∧ NoDup ms.
Proof.
  intros Hwf (n & Hn & Hnone).
  exists (missing path (store w this) (JsObject.keys D)).
  assert (Hms : missing path (store w this) (JsObject.keys D) ≠ []).
  { intros Heq. assert (Hin : n ∈ missing path (store w this)
                                (JsObject.keys D))
      by by apply elem_of_missing.
    rewrite Heq in Hin. by apply elem_of_nil in Hin. }
  split; [|split; [|split; [|split]]].
  - rewrite addDependencies_any. simpl. rewrite record_missing_this.
    by rewrite decide_False.
  - unfold missing, resolves. apply List.filter_ext. intros k.
    destruct (resolution path (store w this) k) as [q|].
    + rewrite bool_decide_true by eauto.
      by rewrite bool_decide_false.
    + rewrite bool_decide_false by (by intros [? ?]).
      by rewrite bool_decide_true.
  - apply elem_of_missing.
  - apply missing_sublist.
  - eapply sublist_NoDup; [exact Hwf | apply missing_sublist].
Qed.

Lemma addDependencies_missing_in_order_witness :
  errors (store (addDependencies Example.path 1 (Some Example.dependencies)
                   Example.w0).2 1%positive)
  = errors (Example.nodes 1%positive) ++ [missing_entry ["left-pad"%string]]
  ∧ errors (store (addDependencies Example.path 1 (Some Example.absent)
                     Example.w0).2 1%positive)
    = errors (Example.nodes 1%positive)
      ++ [missing_entry ["left-pad"%string; "right-pad"%string]].
Proof.
  split.
  - destruct (addDependencies_missing_in_order Example.path 1
                Example.dependencies Example.w0) as (ms & Herr & -> & _).
    + by_evaluation.
    + exists "left-pad"%string. split; [by_evaluation | reflexivity].
    + rewrite Herr. reflexivity.
  - destruct (addDependencies_missing_in_order Example.path 1
                Example.absent Example.w0) as (ms & Herr & -> & _).
    + by_evaluation.
    + exists "left-pad"%string. split; [by_evaluation | reflexivity].
    + rewrite Herr. reflexivity.
Defined.

Lemma record_missing_resolution path σ this ms n :
  resolution path (record_missing σ this ms this) n
  = resolution path (σ this) n.
Proof. by rewrite record_missing_this. Qed.

(** X9.  Resolving the same spec a second time answers the same mapping,
    and records the missing names a second time: the error list is not
    deduplicated. *)
Theorem addDependencies_twice (path : PathModule) (this : loc)
    (D : option (JsObject.t string)) (w : World) :
  let r1 := addDependencies path this D w in
  let r2 := addDependencies path this D r1.2 in
  r2.1 = r1.1
  ∧ ∃ new,
      errors (store r1.2 this) = errors (store w this) ++ new
      ∧ errors (store r2.2 this) = errors (store w this) ++ new ++ new
      ∧ (new = [] ↔ ∀ n, n ∈ declared D →
                      is_Some (resolution path (store w this) n)).
Proof.
  cbv zeta. rewrite !addDependencies_any. simpl.
  assert (Hres : ∀ n,
    resolution path
      (record_missing (store w) this
         (missing path (store w this) (declared D)) this) n
    = resolution path (store w this) n)
    by (intros; apply record_missing_resolution).
  assert (Hmissing :
    missing path
      (record_missing (store w) this
         (missing path (store w this) (declared D)) this) (declared D)
    = missing path (store w this) (declared D)).
  { unfold missing, resolves. apply List.filter_ext. intros n.
    by rewrite Hres. }
  assert (Hresolved :
    resolved path
      (record_missing (store w) this
         (missing path (store w this) (declared D)) this) (declared D) ∅
    = resolved path (store w this) (declared D) ∅).
  { apply map_eq. intros n. by rewrite !resolved_lookup_empty, Hres. }
  rewrite Hmissing, Hresolved. split; [done|].
  exists (if decide (missing path (store w this) (declared D) = [])
          then [] else [missing_entry
                          (missing path (store w this) (declared D))]).
  rewrite !record_missing_this. simpl.
  split; [done|]. split; [by rewrite app_assoc|].
  case_decide as Hms.
  - split; [|done]. intros _ n Hn.
    destruct (resolution path (store w this) n) eqn:Hn'; [eauto|].
    assert (Hin : n ∈ missing path (store w this) (declared D))
      by by apply elem_of_missing.
    rewrite Hms in Hin. by apply elem_of_nil in Hin.
  - split; [done|]. intros Hall. by apply missing_nil in Hall.
Qed.

Lemma probed_app evs1 evs2 : probed (evs1 ++ evs2) = probed evs1 ++ probed evs2.
Proof. apply omap_app. Qed.

Lemma searched_app evs1 evs2 :
  searched (evs1 ++ evs2) = searched evs1 ++ searched evs2.
Proof. apply omap_app. Qed.

Lemma lookups_probed path self names :
  probed (concat (lookups path self <$> names))
  = match nodeModules self with
    | Some _ => names
    | None => []
    end.
Proof.
  induction names as [|n names IH].
  - simpl. by destruct (nodeModules self).
  - rewrite fmap_cons. cbn [concat]. rewrite probed_app, IH. unfold lookups.
    destruct (nodeModules self) as [nm|]; [|done].
    by destruct (findPackage nm n).
Qed.

Lemma lookups_searched path self names :
  searched (concat (lookups path self <$> names))
  = (λ n, (n, dirname path (realPath self)))
    <$> List.filter (λ n, bool_decide (index_answer self n = None)) names.
Proof.
  induction names as [|n names IH]; [done|].
  rewrite fmap_cons. cbn [concat List.filter].
  rewrite searched_app, IH. unfold lookups, index_answer.
  destruct (nodeModules self) as [nm|]; [|done].
  by destruct (findPackage nm n).
Qed.

Lemma lookups_length path self names :
  length (concat (lookups path self <$> names))
  = length (probed (concat (lookups path self <$> names)))
    + length (searched (concat (lookups path self <$> names))).
Proof.
  induction names as [|n names IH]; [done|].
  rewrite fmap_cons. cbn [concat].
  rewrite probed_app, searched_app, !length_app, IH.
  assert (length (lookups path self n)
          = length (probed (lookups path self n))
            + length (searched (lookups path self n))); [|lia].
  unfold lookups. destruct (nodeModules self) as [nm|]; [|done].
  by destruct (findPackage nm n).
Qed.

(** X10.  The collaborator calls of [addDependencies]: the node_modules
    index, when the node has one, is asked for every declared name once, in
    order; the cache is searched exactly for the names the index does not
    answer, in order, each once and always from the parent directory of
    [realPath]; nothing else is called. *)
Theorem addDependencies_calls (path : PathModule) (this : loc)
    (D : option (JsObject.t string)) (w : World) :
  let self := store w this in
  ∃ evs,
    log (addDependencies path this D w).2 = log w ++ evs
    ∧ probed evs
      = match nodeModules self with
        | Some _ => declared D
        | None => []
        end
    ∧ searched evs
      = (λ n, (n, dirname path (realPath self)))
        <$> List.filter (λ n, bool_decide (index_answer self n = None))
              (declared D)
    ∧ length evs = length (probed evs) + length (searched evs).
Proof.
  cbv zeta. rewrite addDependencies_any. simpl. eexists.
  split; [reflexivity|].
  split; [apply lookups_probed|].
  split; [apply lookups_searched | apply lookups_length].
Qed.

(** X11.  After [addDependencies] the node has errors exactly when it had
    some before or some declared name does not resolve; it is as valid as
    it was either way. *)
Theorem addDependencies_hasErrors (path : PathModule) (this : loc)
    (D : option (JsObject.t string)) (w : World) :
  let w' := (addDependencies path this D w).2 in
  (hasErrors (store w' this) = true
   ↔ hasErrors (store w this) = true
     ∨ ∃ n, n ∈ declared D ∧ resolution path (store w this) n = None)
  ∧ valid (store w' this) = valid (store w this).
Proof.
  cbv zeta. rewrite addDependencies_any. simpl.
  rewrite record_missing_this. simpl. split; [|done].
  unfold hasErrors, ErrorList.hasErrors. simpl.
  rewrite !bool_decide_eq_true, length_app.
  case_decide as Hms; simpl.
  - split; [intros ?; left; lia|].
    intros [?|(n & Hn & Hnone)]; [lia|].
    assert (Hin : n ∈ missing path (store w this) (declared D))
      by by apply elem_of_missing.
    rewrite Hms in Hin. by apply elem_of_nil in Hin.
  - split; [|lia]. intros _. right.
    destruct (missing path (store w this) (declared D)) as [|n ms] eqn:Heq;
      [done|].
    exists n. apply elem_of_missing. rewrite Heq. left.
Qed.

(** ** More on reporting: [dumpInvalidAddonPackages] *)

Lemma set_hasDumped_id p :
  _hasDumpedInvalidAddonPackages p = true →
  set_hasDumpedInvalidAddonPackages true p = p.
Proof. destruct p. simpl. by intros ->. Qed.

Lemma dump_store path this l w r :
  store (dumpInvalidAddonPackages path this l w).2 r
  = if decide (r = this)
    then set_hasDumpedInvalidAddonPackages true (store w this)
    else store w r.
Proof.
  destruct (_hasDumpedInvalidAddonPackages (store w this)) eqn:Hflag.
  - rewrite dump_again by done. simpl.
    case_decide as Hr; [|done]. subst r. by rewrite set_hasDumped_id.
  - rewrite dump_first by done. simpl.
    case_decide as Hr.
    + subst r. by rewrite fn_lookup_insert.
    + by rewrite fn_lookup_insert_ne.
Qed.

(** X12.  Whatever it writes, [dumpInvalidAddonPackages] leaves every node
    as it was, except that the flag of its own node is set afterwards; so a
    further call on that node, with any candidate list, changes and writes
    nothing. *)
Theorem dumpInvalidAddonPackages_effect (path : PathModule) (this : loc)
    (l : list loc) (w : World) :
  let w' := (dumpInvalidAddonPackages path this l w).2 in
  (∀ r, store w' r
        = if decide (r = this)
          then set_hasDumpedInvalidAddonPackages true (store w this)
          else store w r)
  ∧ ∀ l2, dumpInvalidAddonPackages path this l2 w' = (tt, w').
Proof.
  cbv zeta. split; [intros r; apply dump_store|].
  intros l2. apply dump_again. by rewrite dump_store, decide_True.
Qed.




(** X14.  On the first build of an owner whose ui can write warning lines,
    with no exclusion function, no candidate is lost silently: the name of
    every valid candidate is a key of the addon map, and every invalid
    candidate has its warning line in the log. *)
Theorem no_candidate_lost (path : PathModule) (this : loc) (l : list loc)
    (w : World) (r : loc) :
  _hasDumpedInvalidAddonPackages (store w this) = false →
  has_channel (store w this) = true →
  r ∈ l →
  (valid (store w r) = true →
   is_Some (generateAddonPackages (store w) l None !! name (store w r)))
  ∧ (valid (store w r) = false →
     Call_ui_writeWarnLine
       (excluded_line path (store w this) (store w r))
     ∈ log (dumpInvalidAddonPackages path this l w).2).
Proof.
  intros Hflag Hui Hr. split; intros Hv.
  - rewrite generateAddonPackages_lookup.
    apply fmap_is_Some, last_is_Some. intros Hnil.
    assert (Hadm : r ∈ admitted_named (store w) None (name (store w r)) l)
      by by apply elem_of_admitted_named.
    rewrite Hnil in Hadm. by apply elem_of_nil in Hadm.
  - rewrite dump_first by done. simpl.
    assert (Hinv : r ∈ getInvalidPackages (store w) l).
    { unfold getInvalidPackages.
      rewrite list_elem_of_In, List.filter_In, <- list_elem_of_In.
      by rewrite Hv. }
    unfold first_dump. rewrite Hui, bool_decide_true.
    + simpl. apply elem_of_app. right. unfold warning_block.
      apply elem_of_cons. right.
      apply list_elem_of_fmap. by exists r.
    + intros Hnil. rewrite Hnil in Hinv. by apply elem_of_nil in Hinv.
Qed.

Lemma no_candidate_lost_witness :
  (valid (Example.nodes 6%positive) = true →
   is_Some (generateAddonPackages Example.nodes [4; 6]%positive None
              !! name (Example.nodes 6%positive)))
  ∧ (valid (Example.nodes 6%positive) = false →
     Call_ui_writeWarnLine
       (excluded_line Example.path (Example.nodes 1%positive)
          (Example.nodes 6%positive))
     ∈ log (dumpInvalidAddonPackages Example.path 1 [4; 6]%positive
              Example.w0).2).
Proof.
  apply (no_candidate_lost Example.path 1 [4; 6]%positive Example.w0 6).
  - reflexivity.
  - reflexivity.
  - by_evaluation.
Defined.

(** ** Registering addons: [addInRepoAddon], [addInternalAddon] *)

Lemma addInRepoAddon_run this x w :
  let w' := (addInRepoAddon this x w).2 in
  (∀ r, store w' r
        = if decide (r = this)
          then set_inRepoAddons
                 (Some (listOf (inRepoAddons (store w this)) ++ [x]))
                 (store w this)
          else store w r)
  ∧ log w' = log w.
Proof.
  cbv zeta. unfold addInRepoAddon. run_M.
  destruct (inRepoAddons (store w this)) as [l0|] eqn:Hrepo; simpl.
  - rewrite Hrepo. simpl. split; [|done]. intros r. case_decide as Hr.
    + subst r. by rewrite fn_lookup_insert.
    + by rewrite fn_lookup_insert_ne.
  - rewrite fn_lookup_insert. simpl. split; [|done]. intros r.
    case_decide as Hr.
    + subst r. by rewrite fn_lookup_insert.
    + by rewrite !fn_lookup_insert_ne.
Qed.

Lemma addInternalAddon_run this x w :
  let w' := (addInternalAddon this x w).2 in
  (∀ r, store w' r
        = if decide (r = this)
          then set_internalAddons
                 (Some (listOf (internalAddons (store w this)) ++ [x]))
                 (store w this)
          else store w r)
  ∧ log w' = log w.
Proof.
  cbv zeta. unfold addInternalAddon. run_M.
  destruct (internalAddons (store w this)) as [l0|] eqn:Hint; simpl.
  - rewrite Hint. simpl. split; [|done]. intros r. case_decide as Hr.
    + subst r. by rewrite fn_lookup_insert.
    + by rewrite fn_lookup_insert_ne.
  - rewrite fn_lookup_insert. simpl. split; [|done]. intros r.
    case_decide as Hr.
    + subst r. by rewrite fn_lookup_insert.
    + by rewrite !fn_lookup_insert_ne.
Qed.

Lemma addPackages_acc acc pl f :
  addPackages acc pl f = acc ++ addPackages [] pl f.
Proof.
  destruct pl as [[l|o]|]; simpl.
  - by rewrite !push_all.
  - generalize (JsObject.keys o). intros ks.
    assert (Hgen : ∀ acc0,
      fold_left
        (λ addonPackageList name,
           match JsObject.get o name with
           | Some pkgInfo =>
               if match f with
                  | Some excludeFn => negb (excludeFn pkgInfo)
                  | None => true
                  end
               then addonPackageList ++ [pkgInfo]
               else addonPackageList
           | None => addonPackageList
           end) ks (acc ++ acc0)
      = acc ++ fold_left
          (λ addonPackageList name,
             match JsObject.get o name with
             | Some pkgInfo =>
                 if match f with
                    | Some excludeFn => negb (excludeFn pkgInfo)
                    | None => true
                    end
                 then addonPackageList ++ [pkgInfo]
                 else addonPackageList
             | None => addonPackageList
             end) ks acc0).
    { induction ks as [|k ks IH]; intros acc0; [done|]. simpl.
      destruct (JsObject.get o k) as [v|]; [|apply IH].
      destruct (match f with
                | Some excludeFn => negb (excludeFn v)
                | None => true
                end); [|apply IH].
      rewrite <- app_assoc. apply IH. }
    specialize (Hgen []). by rewrite app_nil_r in Hgen.
  - by rewrite app_nil_r.
Qed.

Lemma addPackages_ext acc pl (f g : loc → bool) :
  (∀ r, f r = g r) →
  addPackages acc pl (Some f) = addPackages acc pl (Some g).
Proof.
  intros Hfg. destruct pl as [[l|o]|]; simpl; [| |done].
  - f_equal. apply List.filter_ext. intros r. by rewrite Hfg.
  - generalize (JsObject.keys o). intros ks. revert acc.
    induction ks as [|k ks IH]; intros acc; [done|]. simpl.
    destruct (JsObject.get o k) as [v|]; [|apply IH].
    rewrite Hfg. apply IH.
Qed.

Lemma discoverAddonAddons_parts (σ : Store) this :
  discoverAddonAddons σ this
  = addPackages [] (AsObject <$> dependencyPackages (σ this))
      (Some (λ pkgInfo,
         negb (isAddon (σ pkgInfo))
         || bool_decide (name (σ pkgInfo) = "ember-cli"%string)))
    ++ listOf (inRepoAddons (σ this)).
Proof. unfold discoverAddonAddons. cbv zeta. apply addPackages_listOf. Qed.

(** X15.  An in-repo addon registered on a node becomes the last candidate
    of the node's addon discovery, behind everything discovered before;
    the discovery of every other node is unchanged. *)
Theorem addInRepoAddon_discoverAddonAddons (this x : loc) (w : World) :
  let σ' := store (addInRepoAddon this x w).2 in
  discoverAddonAddons σ' this = discoverAddonAddons (store w) this ++ [x]
  ∧ ∀ r, r ≠ this →
      discoverAddonAddons σ' r = discoverAddonAddons (store w) r.
Proof.
  cbv zeta. destruct (addInRepoAddon_run this x w) as [Hstore _].
  cbv zeta in Hstore.
  set (σ' := store (addInRepoAddon this x w).2) in *.
  assert (Hsame : same_candidates (store w) σ').
  { intros r. rewrite Hstore. by case_decide; [subst r|]. }
  assert (Hexcl : ∀ r,
    negb (isAddon (σ' r)) || bool_decide (name (σ' r) = "ember-cli"%string)
    = negb (isAddon (store w r))
      || bool_decide (name (store w r) = "ember-cli"%string)).
  { intros r. by destruct (Hsame r) as [-> ->]. }
  split.
  - rewrite !discoverAddonAddons_parts.
    rewrite (addPackages_ext _ _ _ _ Hexcl).
    rewrite Hstore, decide_True by done. simpl.
    by rewrite app_assoc.
  - intros r Hr. rewrite !discoverAddonAddons_parts.
    rewrite (addPackages_ext _ _ _ _ Hexcl).
    by rewrite (Hstore r), decide_False.
Qed.

Lemma discoverProjectAddons_parts (σ : Store) this p :
  project (σ this) = Some p →
  discoverProjectAddons σ this
  = Normal (before_internal σ this p
            ++ listOf (internalAddons (σ this))
            ++ from_dependencies σ this
            ++ listOf (inRepoAddons (σ this))).
Proof.
  intros Hp. unfold discoverProjectAddons, before_internal, from_dependencies.
  rewrite Hp. cbv zeta. rewrite !addPackages_listOf.
  rewrite (addPackages_acc (addPackages _ _ _)).
  rewrite (addPackages_acc (_ ++ listOf (internalAddons (σ this)))).
  f_equal. rewrite <- !app_assoc.
  rewrite (app_assoc (if isEmberCLIAddon p then [this] else [])). f_equal.
  destruct (cliInfo (σ this)) as [cli|].
  - rewrite addPackages_listOf. by destruct (isEmberCLIAddon p).
  - simpl. destruct (isEmberCLIAddon p); simpl; by rewrite ?app_nil_r.
Qed.

Lemma from_dependencies_ext (σ σ' : Store) this :
  same_candidates σ σ' →
  dependencyPackages (σ' this) = dependencyPackages (σ this) →
  devDependencyPackages (σ' this) = devDependencyPackages (σ this) →
  from_dependencies σ' this = from_dependencies σ this.
Proof.
  intros Hsame Hdeps Hdev. unfold from_dependencies.
  rewrite Hdeps, Hdev.
  assert (Hexcl : ∀ r, negb (isAddon (σ' r)) = negb (isAddon (σ r))).
  { intros r. by destruct (Hsame r) as [-> _]. }
  by rewrite !(addPackages_ext _ _ _ _ Hexcl).
Qed.

(** X16.  An in-repo addon registered on a project becomes the last
    candidate of the project's discovery, provided the project is not its
    own [cliInfo]. *)
Theorem addInRepoAddon_discoverProjectAddons (this x : loc) (w : World)
    (l : list loc) :
  cliInfo (store w this) ≠ Some this →
  discoverProjectAddons (store w) this = Normal l →
  discoverProjectAddons (store (addInRepoAddon this x w).2) this
  = Normal (l ++ [x]).
Proof.
  intros Hcli Hl. destruct (addInRepoAddon_run this x w) as [Hstore _].
  cbv zeta in Hstore.
  set (σ' := store (addInRepoAddon this x w).2) in *.
  destruct (project (store w this)) as [p|] eqn:Hp;
    [|unfold discoverProjectAddons in Hl; by rewrite Hp in Hl].
  assert (Hthis : σ' this
                  = set_inRepoAddons
                      (Some (listOf (inRepoAddons (store w this)) ++ [x]))
                      (store w this))
    by by rewrite Hstore, decide_True.
  assert (Hsame : same_candidates (store w) σ').
  { intros r. rewrite Hstore. by case_decide; [subst r|]. }
  rewrite (discoverProjectAddons_parts _ _ p Hp) in Hl.
  injection Hl as <-.
  rewrite (discoverProjectAddons_parts σ' this p) by by rewrite Hthis.
  rewrite (from_dependencies_ext (store w) σ') by by rewrite ?Hthis.
  f_equal. rewrite <- !app_assoc. f_equal; [|by rewrite Hthis].
  unfold before_internal. f_equal. rewrite Hthis. simpl.
  destruct (cliInfo (store w this)) as [cli|]; [|done].
  rewrite Hstore, decide_False; [done | congruence].
Qed.

Lemma addInRepoAddon_discoverProjectAddons_witness :
  discoverProjectAddons
    (store (addInRepoAddon 1 10 Example.w0).2) 1
  = Normal ([1; 8; 3; 4; 6; 7]%positive ++ [10%positive]).
Proof.
  apply (addInRepoAddon_discoverProjectAddons 1 10 Example.w0).
  - discriminate.
  - reflexivity.
Defined.

(** X17.  An internal addon registered on a project is discovered right
    after the internal addons the project had, before every candidate that
    comes from the dependencies and before the in-repo addons. *)
Theorem addInternalAddon_discoverProjectAddons (this x : loc) (w : World)
    (p : Project) :
  project (store w this) = Some p →
  let σ := store w in
  let σ' := store (addInternalAddon this x w).2 in
  discoverProjectAddons σ this
  = Normal (before_internal σ this p
            ++ listOf (internalAddons (σ this))
            ++ from_dependencies σ this
            ++ listOf (inRepoAddons (σ this)))
  ∧ discoverProjectAddons σ' this
    = Normal (before_internal σ this p
              ++ (listOf (internalAddons (σ this)) ++ [x])
              ++ from_dependencies σ this
              ++ listOf (inRepoAddons (σ this))).
Proof.
  intros Hp. cbv zeta.
  destruct (addInternalAddon_run this x w) as [Hstore _].
  cbv zeta in Hstore.
  set (σ' := store (addInternalAddon this x w).2) in *.
  split; [by apply discoverProjectAddons_parts|].
  assert (Hthis : σ' this
                  = set_internalAddons
                      (Some (listOf (internalAddons (store w this)) ++ [x]))
                      (store w this))
    by by rewrite Hstore, decide_True.
  assert (Hsame : same_candidates (store w) σ').
  { intros r. rewrite Hstore. by case_decide; [subst r|]. }
  rewrite (discoverProjectAddons_parts σ' this p) by by rewrite Hthis.
  rewrite (from_dependencies_ext (store w) σ') by by rewrite ?Hthis.
  f_equal. f_equal; [|by rewrite Hthis].
  unfold before_internal. f_equal. rewrite Hthis. simpl.
  destruct (cliInfo (store w this)) as [cli|]; [|done].
  rewrite Hstore. by case_decide; [subst cli|].
Qed.

Lemma addInternalAddon_discoverProjectAddons_witness :
  discoverProjectAddons (store (addInternalAddon 1 10 Example.w0).2) 1
  = Normal [1; 8; 3; 10; 4; 6; 7]%positive.
Proof.
  destruct (addInternalAddon_discoverProjectAddons 1 10 Example.w0
              {| isEmberCLIAddon := true |}) as [_ H].
  - reflexivity.
  - cbv zeta in H. rewrite H. reflexivity.
Defined.

(** ** Constructing a node *)

Lemma JsObject_get_set {V} (o : JsObject.t V) k v :
  JsObject.get (JsObject_set o k v) k = Some v.
Proof.
  induction o as [|[k' v'] o IH]; simpl.
  - by rewrite decide_True.
  - case_decide as Hk; simpl.
    + by rewrite decide_True.
    + by rewrite decide_False.
Qed.

Lemma JsObject_get_set_ne {V} (o : JsObject.t V) k k' v :
  k' ≠ k → JsObject.get (JsObject_set o k v) k' = JsObject.get o k'.
Proof.
  intros Hne. induction o as [|[k0 v0] o IH]; simpl.
  - by rewrite decide_False.
  - case_decide as Hk; simpl.
    + subst k0. by rewrite !decide_False.
    + by rewrite IH.
Qed.

Lemma JsObject_keys_set {V} (o : JsObject.t V) k v k' :
  k' ∈ JsObject.keys (JsObject_set o k v) ↔ k' = k ∨ k' ∈ JsObject.keys o.
Proof.
  unfold JsObject.keys. induction o as [|[k0 v0] o IH]; simpl.
  - rewrite list_elem_of_singleton. split; [by left | by intros [?|?%elem_of_nil]].
  - case_decide as Hk; simpl; rewrite !elem_of_cons.
    + subst k0. tauto.
    + rewrite IH. tauto.
Qed.

Lemma JsObject_wf_set {V} (o : JsObject.t V) k v :
  JsObject.wf o → JsObject.wf (JsObject_set o k v).
Proof.
  unfold JsObject.wf. induction o as [|[k0 v0] o IH]; intros Hnd.
  - change (NoDup [k]). apply list.NoDup_cons.
    split; [apply not_elem_of_nil | constructor].
  - change (NoDup (k0 :: JsObject.keys o)) in Hnd.
    apply list.NoDup_cons in Hnd as [Hk0 Hnd].
    simpl. case_decide as Hk.
    + change (NoDup (k0 :: JsObject.keys o)). by apply list.NoDup_cons.
    + change (NoDup (k0 :: JsObject.keys (JsObject_set o k v))).
      apply list.NoDup_cons. split; [|by apply IH].
      intros [?|?]%JsObject_keys_set; [congruence | done].
Qed.

Lemma JsObject_set_set {V} (o : JsObject.t V) k v v' :
  JsObject_set (JsObject_set o k v) k v' = JsObject_set o k v'.
Proof.
  induction o as [|[k0 v0] o IH]; simpl.
  - by rewrite decide_True.
  - case_decide as Hk; simpl.
    + by rewrite decide_True.
    + by rewrite decide_False, IH.
Qed.

Section Constructed.
Variable number_is_zero : string → bool.

Lemma constructor_ember_addon_value pkgObj realPath cache :
  ∃ v,
    JsObject.get
      (pkg_members (pkg (constructor number_is_zero pkgObj realPath cache)))
      "ember-addon"%string = Some v
    ∧ ToBoolean number_is_zero v = true
    ∧ pkg_members (pkg (constructor number_is_zero pkgObj realPath cache))
      = JsObject_set (pkg_members pkgObj) "ember-addon"%string v
    ∧ ∀ v0, JsObject.get (pkg_members pkgObj) "ember-addon"%string = Some v0 →
            ToBoolean number_is_zero v0 = true → v = v0.
Proof.
  unfold constructor. simpl.
  destruct (JsObject.get (pkg_members pkgObj) "ember-addon"%string)
    as [v0|] eqn:Hget.
  - destruct (ToBoolean number_is_zero v0) eqn:Htruthy.
    + exists v0. rewrite JsObject_get_set. repeat split; try done.
      by intros ? [= ->].
    + exists (JObject []). rewrite JsObject_get_set. repeat split; try done.
      intros ? [= <-]. congruence.
  - exists (JObject []). rewrite JsObject_get_set. by repeat split.
Qed.

(** X18.  A constructed node always has a truthy 'ember-addon' member in
    its manifest: the one of the package.json if that is truthy, else an
    empty object.  Nothing else of the manifest changes: the other members,
    the name and the answer of [isAddon] are those of the package.json, and
    its keys stay distinct. *)
Theorem constructor_ember_addon (pkgObj : Manifest) (realPath : string)
    (cache : PackageInfoCache) :
  let this := constructor number_is_zero pkgObj realPath cache in
  (∃ v,
     JsObject.get (pkg_members (pkg this)) "ember-addon"%string = Some v
     ∧ ToBoolean number_is_zero v = true
     ∧ ∀ v0,
         JsObject.get (pkg_members pkgObj) "ember-addon"%string = Some v0 →
         if ToBoolean number_is_zero v0 then v = v0 else v = JObject [])
  ∧ (JsObject.get (pkg_members pkgObj) "ember-addon"%string = None →
     JsObject.get (pkg_members (pkg this)) "ember-addon"%string
     = Some (JObject []))
  ∧ (∀ k, k ≠ "ember-addon"%string →
       JsObject.get (pkg_members (pkg this)) k
       = JsObject.get (pkg_members pkgObj) k)
  ∧ name this = pkg_name pkgObj
  ∧ (∀ p, pkg p = pkgObj → isAddon this = isAddon p)
  ∧ (JsObject.wf (pkg_members pkgObj) →
     JsObject.wf (pkg_members (pkg this))).
Proof.
  cbv zeta. split; [|split; [|split; [|split; [|split]]]].
  - unfold constructor. simpl. rewrite JsObject_get_set.
    destruct (JsObject.get (pkg_members pkgObj) "ember-addon"%string)
      as [v0|] eqn:Hget.
    + destruct (ToBoolean number_is_zero v0) eqn:Htruthy.
      * exists v0. repeat split; try done. intros ? [= <-]. by rewrite Htruthy.
      * exists (JObject []). repeat split; try done.
        intros ? [= <-]. by rewrite Htruthy.
    + exists (JObject []). by repeat split.
  - unfold constructor. simpl. intros ->. by rewrite JsObject_get_set.
  - intros k Hk. unfold constructor. simpl. by apply JsObject_get_set_ne.
  - done.
  - intros p <-. unfold isAddon, constructor. simpl.
    by rewrite JsObject_get_set_ne.
  - unfold constructor. simpl. apply JsObject_wf_set.
Qed.

(** X19.  Constructing a node from the manifest of a constructed node
    leaves that manifest as it is: the default for 'ember-addon' is filled
    in once. *)
Theorem constructor_manifest_idempotent (pkgObj : Manifest)
    (realPath realPath' : string) (cache cache' : PackageInfoCache) :
  pkg (constructor number_is_zero
         (pkg (constructor number_is_zero pkgObj realPath cache))
         realPath' cache')
  = pkg (constructor number_is_zero pkgObj realPath cache).
Proof.
  destruct (constructor_ember_addon_value pkgObj realPath cache)
    as (v & Hget & Htruthy & Hmembers & _).
  remember (pkg (constructor number_is_zero pkgObj realPath cache)) as m.
  destruct m as [n members]. simpl in *.
  unfold constructor. simpl. rewrite Hget, Htruthy. f_equal.
  by rewrite Hmembers, JsObject_set_set.
Qed.
End Constructed.

(** ** The remaining methods, run *)

Example constructor_fills_in :
  pkg_members
    (pkg (constructor (λ literal, bool_decide (literal = "0"%string))
            {| pkg_name := "ember-foo";
               pkg_members :=
                 [("ember-addon"%string, JNull);
                  ("keywords"%string, JArray [JString "ember-addon"])] |}
            "/work/ember-foo" Example.the_cache))
  = [("ember-addon"%string, JObject []);
     ("keywords"%string, JArray [JString "ember-addon"])].
Proof. reflexivity. Qed.

Example constructor_appends :
  pkg_members
    (pkg (constructor (λ literal, bool_decide (literal = "0"%string))
            (Example.manifest "ember-foo" true)
            "/work/ember-foo" Example.the_cache))
  = [("keywords"%string, JArray [JString "ember-addon"]);
     ("ember-addon"%string, JObject [])].
Proof. reflexivity. Qed.

Example first_in_repo_addon :
  inRepoAddons (Example.nodes 5%positive) = None
  ∧ inRepoAddons (store (addInRepoAddon 5 10 Example.w0).2 5%positive)
    = Some [10%positive]
  ∧ inRepoAddons
      (store (addInRepoAddon 5 11 (addInRepoAddon 5 10 Example.w0).2).2
         5%positive)
    = Some [10; 11]%positive.
Proof. by vm_compute. Qed.

Example keyword_must_be_in_an_array :
  isAddon
    (constructor (λ _, false)
       {| pkg_name := "x";
          pkg_members := [("keywords"%string, JString "ember-addon")] |}
       "/x" Example.the_cache)
  = false.
Proof. reflexivity. Qed.
